(** * component_vis.utils: tensor unfolding and CP / Tucker reconstruction

    A shallow embedding of [src/component_vis/utils.py].  The module is a
    thin layer over NumPy: arrays are modelled as a shape together with the
    elements in logical row-major order, and the NumPy primitives the module
    calls ([reshape], [moveaxis], [einsum], [item]) are modelled on that
    representation following their documented behaviour.  Python exceptions
    are values of an error monad. *)

From Stdlib Require Import String Ascii DecimalString ZArith Bool Arith Lia List.
From stdpp Require Import gmap strings.
Import ListNotations.

Local Open Scope nat_scope.

(** ** Exceptions and the error monad *)

Inductive exn : Type :=
| TypeError (msg : string)
| ValueError (msg : string)
| IndexError (msg : string)
| AttributeError (msg : string)
| AxisError (axis : Z) (ndim : nat).

Inductive result (T : Type) : Type :=
| Ok (v : T)
| Raise (e : exn).
Arguments Ok {T} v.
Arguments Raise {T} e.

Definition bind {T U : Type} (r : result T) (k : T -> result U) : result U :=
  match r with
  | Ok v => k v
  | Raise e => Raise e
  end.

Notation "x <- e ;; k" := (bind e (fun x => k))
  (at level 100, e at level 60, k at level 200, right associativity).

(** A [for] loop whose body may raise: the first exception ends the loop. *)
Fixpoint for_each {S X : Type} (body : S -> X -> result S) (xs : list X) (st : S)
  : result S :=
  match xs with
  | [] => Ok st
  | x :: xs' => st' <- body st x ;; for_each body xs' st'
  end.

(** Python's [enumerate]. *)
Definition enumerate {X : Type} (l : list X) : list (nat * X) :=
  combine (seq 0 (length l)) l.

(** ** Characters and formatted text *)

Definition ord (c : ascii) : nat := nat_of_ascii c.

(** [chr] on the code points the module reaches: both label loops stop at
    code 123, one past [ord "z"]. *)
Definition chr (n : nat) : ascii := ascii_of_nat n.

Definition str_of_nat (n : nat) : string := NilEmpty.string_of_uint (Nat.to_uint n).
Definition str_of_Z (z : Z) : string := NilEmpty.string_of_int (Z.to_int z).
Definition str_of_char (c : ascii) : string := String c EmptyString.

(** The subscript of mode [mode], [chr(ord("a") + mode)], and of its rank
    axis in a Tucker core, [chr(ord("A") + mode)]. *)
Definition mode_symbol (mode : nat) : ascii := chr (ord "a" + mode).
Definition rank_symbol (mode : nat) : ascii := chr (ord "A" + mode).

(** The terms the reconstruction functions write for [n_modes] modes. *)
Definition cp_terms (n_modes : nat) : list (list ascii) :=
  ["R"%char] :: map (fun m => [mode_symbol m; "R"%char]) (seq 0 n_modes).

Definition tucker_terms (n_modes : nat) : list (list ascii) :=
  map rank_symbol (seq 0 n_modes)
    :: map (fun m => [mode_symbol m; rank_symbol m]) (seq 0 n_modes).

Definition mode_symbols (n_modes : nat) : list ascii := map mode_symbol (seq 0 n_modes).

Definition rank_symbols (n_modes : nat) : list ascii := map rank_symbol (seq 0 n_modes).

(** The extent each label of the CP contraction stands for, given the rank
    and the row counts of the factor matrices. *)
Definition cp_extent (rank : nat) (ns : list nat) (c : ascii) : nat :=
  if Ascii.eqb c "R" then rank else nth (ord c - 97) ns 0.

(** The extent each label of the Tucker contraction stands for, given the
    shape of the core and the row counts of the factor matrices. *)
Definition tucker_extent (rs ns : list nat) (c : ascii) : nat :=
  if ord c <? 97 then nth (ord c - 65) rs 0 else nth (ord c - 97) ns 0.

(** ** Shapes and multi-indices *)

Definition size_of (s : list nat) : nat := fold_right Nat.mul 1 s.

(** All multi-indices of a shape, in row-major (C) order. *)
Fixpoint indices (s : list nat) : list (list nat) :=
  match s with
  | [] => [[]]
  | n :: s' => flat_map (fun i => map (cons i) (indices s')) (seq 0 n)
  end.

(** Row-major offset of a multi-index. *)
Fixpoint ravel (s idx : list nat) : nat :=
  match s, idx with
  | _ :: s', i :: idx' => i * size_of s' + ravel s' idx'
  | _, _ => 0
  end.

Definition valid_index (s idx : list nat) : Prop := Forall2 lt idx s.

(** [list.insert(i, x)] for [i >= 0]. *)
Definition insert_at {X : Type} (i : nat) (x : X) (l : list X) : list X :=
  firstn i l ++ x :: skipn i l.

Definition remove_at {X : Type} (i : nat) (l : list X) : list X :=
  firstn i l ++ skipn (S i) l.

(** Position of the first occurrence of [j] in [l]. *)
Fixpoint index_of (j : nat) (l : list nat) : nat :=
  match l with
  | [] => 0
  | x :: l' => if x =? j then 0 else S (index_of j l')
  end.

Definition is_permutation (axes : list nat) (n : nat) : bool :=
  (length axes =? n) && forallb (fun j => existsb (Nat.eqb j) axes) (seq 0 n).

(** Python tuple subscription [t[i]], negative positions counting from the
    end. *)
Definition tuple_item (t : list nat) (i : Z) : result nat :=
  let n := Z.of_nat (length t) in
  let j := if (i <? 0)%Z then (i + n)%Z else i in
  if (0 <=? j)%Z && (j <? n)%Z then Ok (nth (Z.to_nat j) t 0)
  else Raise (IndexError "tuple index out of range").

Definition valid_axis (axis : Z) (nd : nat) : Prop :=
  (- Z.of_nat nd <= axis < Z.of_nat nd)%Z.

(** The position a possibly negative axis number stands for. *)
Definition axis_position (axis : Z) (nd : nat) : nat :=
  Z.to_nat (if (axis <? 0)%Z then axis + Z.of_nat nd else axis).

(** Axis numbers NumPy can take in: it converts the axis to a C [int] before
    looking at the number of dimensions, and a Python integer beyond that
    raises [OverflowError] instead. *)
Definition fits_c_int (axis : Z) : Prop := (- 2 ^ 31 <= axis < 2 ^ 31)%Z.

(** [numpy.core.multiarray.normalize_axis_index], on axis numbers that fit a
    C [int] (see [fits_c_int]); the conversion error for larger ones is not
    modelled. *)
Definition normalize_axis_index (axis : Z) (nd : nat) : result nat :=
  if (- Z.of_nat nd <=? axis)%Z && (axis <? Z.of_nat nd)%Z
  then Ok (axis_position axis nd)
  else Raise (AxisError axis nd).

(** A requested extent in [reshape]: a number, or [-1] (to be inferred). *)
Inductive dim_arg : Type :=
| Dim (n : nat)
| Infer.

Definition is_infer (d : dim_arg) : bool :=
  match d with Infer => true | Dim _ => false end.

Definition dim_value (inferred : nat) (d : dim_arg) : nat :=
  match d with Dim n => n | Infer => inferred end.

Definition known_size (new : list dim_arg) : nat :=
  size_of (map (dim_value 1) new).

(** ** einsum subscripts *)

Definition is_alpha (c : ascii) : bool :=
  let n := ord c in
  ((65 <=? n) && (n <=? 90)) || ((97 <=? n) && (n <=? 122)).

Definition mem_char (c : ascii) (l : list ascii) : bool :=
  existsb (Ascii.eqb c) l.

Fixpoint split_on (sep : ascii) (l : list ascii) : list (list ascii) :=
  match l with
  | [] => [[]]
  | c :: l' =>
      if Ascii.eqb c sep then [] :: split_on sep l'
      else match split_on sep l' with
           | [] => [[c]]
           | t :: ts => (c :: t) :: ts
           end
  end.

(** Splits at the first ["->"]. *)
Fixpoint split_arrow (l : list ascii) : option (list ascii * list ascii) :=
  match l with
  | [] => None
  | c :: l' =>
      match l' with
      | c' :: r =>
          if Ascii.eqb c "-" && Ascii.eqb c' ">" then Some ([], r)
          else option_map (fun p => (c :: fst p, snd p)) (split_arrow l')
      | [] => None
      end
  end.

Definition no_blank (c : ascii) : bool := negb (Ascii.eqb c " ").

(** Operand terms joined by commas. *)
Definition join_terms (ins : list (list ascii)) : list ascii :=
  match ins with
  | [] => []
  | t :: ts => t ++ flat_map (fun t' => ","%char :: t') ts
  end.

(** The operand terms and the output term of an explicit subscripts string. *)
Definition parse_subscripts (subscripts : string)
  : option (list (list ascii) * list ascii) :=
  let chars := List.filter no_blank (list_ascii_of_string subscripts) in
  match split_arrow chars with
  | None => None
  | Some (lhs, out) => Some (split_on "," lhs, out)
  end.

(** Labels in order of first appearance. *)
Fixpoint dedup (seen l : list ascii) : list ascii :=
  match l with
  | [] => []
  | c :: l' => if mem_char c seen then dedup seen l' else c :: dedup (c :: seen) l'
  end.

Fixpoint nodup_chars (l : list ascii) : bool :=
  match l with
  | [] => true
  | c :: l' => negb (mem_char c l') && nodup_chars l'
  end.

Fixpoint assoc_char (c : ascii) (env : list (ascii * nat)) : option nat :=
  match env with
  | [] => None
  | (c', n) :: env' => if Ascii.eqb c c' then Some n else assoc_char c env'
  end.

Definition lookup_label (env : list (ascii * nat)) (c : ascii) : nat :=
  match assoc_char c env with Some n => n | None => 0 end.

(** ** Scalars *)

(** The element type and its arithmetic are kept abstract.  Nothing below
    relies on algebraic laws; what is proved holds for the order in which
    the model combines elements. *)
Class Scalar (A : Type) : Type := {
  zero : A;
  one : A;
  add : A -> A -> A;
  mul : A -> A -> A
}.

#[export] Instance Z_scalar : Scalar Z :=
  {| zero := 0%Z; one := 1%Z; add := Z.add; mul := Z.mul |}.

(** Row or coordinate labels. *)
Inductive label : Type :=
| LabelInt (z : Z)
| LabelStr (s : string).

(** Values the [mode] / [axis] parameters can be bound to. *)
Inductive pyval : Type :=
| PyNone
| PyInt (z : Z).

Definition is_none (v : pyval) : bool :=
  match v with PyNone => true | PyInt _ => false end.

(** Python [!=] on these values. *)
Definition py_ne (a b : pyval) : bool :=
  match a, b with
  | PyNone, PyNone => false
  | PyInt x, PyInt y => negb (x =? y)%Z
  | _, _ => true
  end.

(** [dict.get(key, default)] on one entry of a mapping. *)
Definition get_default (entry : option pyval) (default : pyval) : pyval :=
  match entry with Some v => v | None => default end.

(** A signature: parameter names with their default, [None] standing for
    [inspect._empty]. *)
Definition signature : Type := list (string * option pyval).

Fixpoint parameter (name : string) (sig : signature) : option (option pyval) :=
  match sig with
  | [] => None
  | (n, d) :: sig' => if String.eqb name n then Some d else parameter name sig'
  end.

Definition has_parameter (name : string) (sig : signature) : bool :=
  match parameter name sig with Some _ => true | None => false end.

Definition too_many_modes_msg (max_modes : Z) (n_modes : nat) : string :=
  ("Cannot have more than " ++ str_of_Z max_modes
     ++ " modes. Current components have " ++ str_of_nat n_modes ++ ".")%string.

(** A result that is not the "too many modes" range error. *)
Definition no_range_error {T : Type} (r : result T) : Prop :=
  forall (k : Z) (n : nat), r <> Raise (ValueError (too_many_modes_msg k n)).

Section Arrays.

Context {A : Type} `{Scalar A}.

(** *** Dense arrays *)

Record ndarray : Type := NdArray { shape : list nat; data : list A }.

Definition ndim (a : ndarray) : nat := length (shape a).

(** Every NumPy array holds as many elements as its shape says. *)
Definition wf (a : ndarray) : Prop := length (data a) = size_of (shape a).

Definition get (a : ndarray) (idx : list nat) : A :=
  nth (ravel (shape a) idx) (data a) zero.

(** The array of shape [s] whose entry at [idx] is [f idx]. *)
Definition build (s : list nat) (f : list nat -> A) : ndarray :=
  NdArray s (map f (indices s)).

Definition sum_of (l : list A) : A := fold_left add l zero.

Definition prod_of (l : list A) : A :=
  match l with
  | [] => one
  | x :: l' => fold_left mul l' x
  end.

(** [np.ones(n)] *)
Definition ones (n : nat) : ndarray := NdArray [n] (repeat one n).

(** [a.reshape(new)].  The elements keep their row-major order; at most one
    extent may be [-1], and it cannot be inferred when the others multiply
    to zero. *)
Definition reshape (a : ndarray) (new : list dim_arg) : result ndarray :=
  let s_original := size_of (shape a) in
  let s_known := known_size new in
  match length (List.filter is_infer new) with
  | 0 =>
      if s_original =? s_known then Ok (NdArray (map (dim_value 0) new) (data a))
      else Raise (ValueError "cannot reshape array into the requested shape")
  | 1 =>
      if (s_known =? 0) || negb (s_original mod s_known =? 0)
      then Raise (ValueError "cannot reshape array into the requested shape")
      else Ok (NdArray (map (dim_value (s_original / s_known)) new) (data a))
  | _ => Raise (ValueError "can only specify one unknown dimension")
  end.

(** [a.transpose(axes)]: axis [i] of the result is axis [axes[i]] of [a]. *)
Definition transpose (a : ndarray) (axes : list nat) : result ndarray :=
  if is_permutation axes (ndim a) then
    Ok (build (map (fun ax => nth ax (shape a) 0) axes)
          (fun idx => get a (map (fun j => nth (index_of j axes) idx 0)
                               (seq 0 (ndim a)))))
  else Raise (ValueError "axes don't match array").

(** [np.moveaxis(a, source, destination)] for integer arguments. *)
Definition moveaxis (a : ndarray) (source destination : Z) : result ndarray :=
  src <- normalize_axis_index source (ndim a) ;;
  dst <- normalize_axis_index destination (ndim a) ;;
  let order := List.filter (fun n => negb (n =? src)) (seq 0 (ndim a)) in
  transpose a (insert_at dst src order).

(** [a.item()] *)
Definition item (a : ndarray) : result A :=
  if size_of (shape a) =? 1 then Ok (nth 0 (data a) zero)
  else Raise (ValueError "can only convert an array of size 1 to a Python scalar").

(** *** Labelled containers *)

(** A [pandas.DataFrame]: its values and its row index. *)
Record DataFrame : Type := {
  df_values : ndarray;
  df_index_name : option string;
  df_index_values : list label
}.

(** An [xarray.DataArray] as its constructor receives it. *)
Record DataArray : Type := {
  da_values : ndarray;
  da_dims : list string;
  da_coords : gmap string (list label)
}.

Inductive array_like : Type :=
| PyScalar (x : A)
| Plain (a : ndarray)
| XArray (d : DataArray)
| Frame (df : DataFrame).

(** [np.asarray] *)
Definition asarray (x : array_like) : ndarray :=
  match x with
  | PyScalar v => NdArray [] [v]
  | Plain a => a
  | XArray d => da_values d
  | Frame df => df_values df
  end.

(** A factor matrix: a plain array or a data frame. *)
Inductive factor_matrix : Type :=
| Matrix (a : ndarray)
| LabelledMatrix (df : DataFrame).

Definition factor_values (fm : factor_matrix) : ndarray :=
  match fm with
  | Matrix a => a
  | LabelledMatrix df => df_values df
  end.

Definition has_labels (fm : factor_matrix) : bool :=
  match fm with
  | Matrix _ => false
  | LabelledMatrix _ => true
  end.

(** What the reconstruction functions return. *)
Inductive dense : Type :=
| PlainTensor (a : ndarray)
| LabelledTensor (d : DataArray).

Definition dense_values (t : dense) : ndarray :=
  match t with
  | PlainTensor a => a
  | LabelledTensor d => da_values d
  end.

(** *** np.einsum *)

(** The label / extent pairs of all operands, in operand order. *)
Definition label_extents (ins : list (list ascii)) (operands : list ndarray)
  : list (ascii * nat) :=
  flat_map (fun p => combine (fst p) (shape (snd p))) (combine ins operands).

Definition summed_labels (ins : list (list ascii)) (out : list ascii) : list ascii :=
  dedup [] (List.filter (fun c => negb (mem_char c out)) (concat ins)).

(** The contraction itself: each output entry sums, over all values of the
    labels missing from the output, the product of the operand entries. *)
Definition einsum_eval (ins : list (list ascii)) (out : list ascii)
    (operands : list ndarray) : ndarray :=
  let extent := lookup_label (label_extents ins operands) in
  let summed := summed_labels ins out in
  build (map extent out)
    (fun oidx =>
       sum_of
         (map (fun sidx =>
                 let env := combine (out ++ summed) (oidx ++ sidx) in
                 prod_of
                   (map (fun p => get (snd p) (map (lookup_label env) (fst p)))
                      (combine ins operands)))
            (indices (map extent summed)))).

Definition term_fits (p : list ascii * ndarray) : bool :=
  length (fst p) =? ndim (snd p).

Definition extents_agree (pairs : list (ascii * nat)) : bool :=
  forallb (fun p => lookup_label pairs (fst p) =? snd p) pairs.

(** An operand whose extents are those [ext] gives to the labels of its term. *)
Definition shaped_by (ext : ascii -> nat) (t : list ascii) (op : ndarray) : Prop :=
  shape op = map ext t.

(** The checks on parsed subscripts and operands, then the contraction.
    Operands whose extents disagree on a label are rejected; NumPy itself
    still accepts an extent of 1 beside a larger one, a case the module's
    own callers never need. *)
Definition contract (ins : list (list ascii)) (out : list ascii)
    (operands : list ndarray) : result ndarray :=
  if negb (forallb is_alpha (concat ins ++ out)) then
    Raise (ValueError "einsum: invalid subscript")
  else if negb (length ins =? length operands) then
    Raise (ValueError "einsum: wrong number of operands")
  else if negb (forallb term_fits (combine ins operands)) then
    Raise (ValueError "einsum: operand has the wrong number of subscripts")
  else if negb (nodup_chars out) then
    Raise (ValueError "einsum: output includes a subscript more than once")
  else if negb (forallb (fun c => mem_char c (concat ins)) out) then
    Raise (ValueError "einsum: output subscript never appeared in an input")
  else if negb (extents_agree (label_extents ins operands)) then
    Raise (ValueError "einsum: operands could not be broadcast together")
  else Ok (einsum_eval ins out operands).

(** [np.einsum(subscripts, operands...)] for the explicit form
    ["in_1, ..., in_k -> out"] with alphabetic labels, which is the only form
    the module builds.  Blanks are ignored. *)
Definition einsum (subscripts : string) (operands : list ndarray) : result ndarray :=
  match parse_subscripts subscripts with
  | None => Raise (ValueError "einsum: no explicit output")
  | Some (ins, out) => contract ins out operands
  end.

(** *** _alias_mode_axis *)

(** The bound arguments of a call: the tensor, and an entry for [mode] and for
    [axis] when the caller passed one. *)
Record arguments : Type := {
  arg_tensor : array_like;
  arg_mode : option pyval;
  arg_axis : option pyval
}.

Definition set_mode (args : arguments) (v : pyval) : arguments :=
  {| arg_tensor := arg_tensor args; arg_mode := Some v; arg_axis := arg_axis args |}.

Definition set_tensor (args : arguments) (t : array_like) : arguments :=
  {| arg_tensor := t; arg_mode := arg_mode args; arg_axis := arg_axis args |}.

Definition new_func {R : Type} (mode_default_value : pyval)
    (func : arguments -> result R) (args : arguments) : result R :=
  let mode := get_default (arg_mode args) mode_default_value in
  let axis := get_default (arg_axis args) PyNone in
  if is_none mode && is_none axis then
    Raise (TypeError "needs either ``mode`` or ``axis`` to be set to a value different than None.")
  else if py_ne mode mode_default_value && negb (is_none axis) then
    Raise (TypeError "Either ``mode`` or ``axis`` can be specified, not both.")
  else if negb (is_none axis) then func (set_mode args axis)
  else func args.

(** The decorator, applied to a function of signature [sig].  Decoration
    itself fails when the function lacks one of the two parameters. *)
Definition _alias_mode_axis {R : Type} (sig : signature)
    (func : arguments -> result R) : result (arguments -> result R) :=
  if negb (has_parameter "axis" sig) || negb (has_parameter "mode" sig) then
    Raise (TypeError "needs both ``mode`` and ``axis`` as possible arguments.")
  else
    let mode_default_value :=
      match parameter "mode" sig with
      | Some (Some d) => d
      | _ => PyNone
      end in
    Ok (new_func mode_default_value func).

(** Modelled from the spec: [_handle_labelled_dataset] lives in
    [xarray_wrapper], which is not part of the sources at hand.  With
    ["tensor"] as the dataset and no output to relabel, it hands a labelled
    tensor to the wrapped function as a plain array and returns the result
    untouched. *)
Definition _handle_labelled_dataset {R : Type}
    (func : arguments -> result R) (args : arguments) : result R :=
  match arg_tensor args with
  | XArray d => func (set_tensor args (Plain (da_values d)))
  | Frame df => func (set_tensor args (Plain (df_values df)))
  | _ => func args
  end.

(** *** extract_singleton *)

Definition extract_singleton (x : array_like) : result A :=
  flat <- reshape (asarray x) [Infer] ;;
  item flat.

(** *** unfold_tensor *)

Definition unfold_tensor_signature : signature :=
  [("tensor"%string, None); ("mode"%string, None); ("axis"%string, Some PyNone)].

(** The undecorated function, called with keyword arguments. *)
Definition unfold_tensor_body (args : arguments) : result ndarray :=
  match arg_mode args with
  | None => Raise (TypeError "missing 1 required positional argument: 'mode'")
  | Some PyNone => Raise (TypeError "'NoneType' object cannot be interpreted as an integer")
  | Some (PyInt mode) =>
      let dataset := asarray (arg_tensor args) in
      moved <- moveaxis dataset mode 0 ;;
      rows <- tuple_item (shape dataset) mode ;;
      reshape moved [Dim rows; Infer]
  end.

Definition unfold_tensor (args : arguments) : result ndarray :=
  aliased <- _alias_mode_axis unfold_tensor_signature unfold_tensor_body ;;
  _handle_labelled_dataset aliased args.

(** The call [unfold_tensor(x, mode)]. *)
Definition call_with_mode (x : array_like) (mode : Z) : arguments :=
  {| arg_tensor := x; arg_mode := Some (PyInt mode); arg_axis := None |}.

(** The matrix [unfold_tensor] computes along axis [m]. *)
Definition unfolded (T : ndarray) (m : nat) : ndarray :=
  NdArray [nth m (shape T) 0; size_of (remove_at m (shape T))]
    (map (fun idx => get T (insert_at m (hd 0 idx) (tl idx)))
       (indices (nth m (shape T) 0 :: remove_at m (shape T)))).

(** A parameter counts as given when it is bound to a value other than
    [None]. *)
Definition given (entry : option pyval) : bool :=
  match entry with
  | Some (PyInt _) => true
  | _ => false
  end.

(** Configuration errors are Python [TypeError]s. *)
Definition is_configuration_error {R : Type} (r : result R) : bool :=
  match r with
  | Raise (TypeError _) => true
  | _ => false
  end.

(** The inverse the round-trip property speaks of: reshape the unfolded
    matrix to the shape with axis [mode] in front, then move axis 0 back to
    position [mode]. *)
Definition fold_tensor (unfolded : ndarray) (mode : nat) (s : list nat)
  : result ndarray :=
  full <- reshape unfolded (map Dim (nth mode s 0 :: remove_at mode s)) ;;
  moveaxis full 0 (Z.of_nat mode).

(** *** cp_to_tensor *)

(** The value of [w.reshape(-1)]. *)
Definition flattened (w : ndarray) : ndarray :=
  NdArray [size_of (shape w)] (data w).


(** Modelled from the spec: [is_labelled_cp] lives in [xarray_wrapper]; it
    tells whether every factor matrix carries row labels. *)
Definition is_labelled_cp (cp_tensor : option ndarray * list factor_matrix) : bool :=
  forallb has_labels (snd cp_tensor).

Definition cp_weights (cp_tensor : option ndarray * list factor_matrix)
  : result ndarray :=
  match fst cp_tensor with
  | None =>
      match snd cp_tensor with
      | [] => Raise (IndexError "list index out of range")
      | fm :: _ =>
          rank <- tuple_item (shape (factor_values fm)) 1 ;;
          Ok (ones rank)
      end
  | Some w => reshape w [Infer]
  end.

(** One round of the loop that writes the einsum subscripts. *)
Definition cp_subscript_step (n_modes : nat) (st : string * string) (mode : nat)
  : result (string * string) :=
  let idx := mode_symbol mode in
  if ord "z" <? ord idx then
    let max_modes := (Z.of_nat (ord "a") - Z.of_nat (ord "z") - 1)%Z in
    Raise (ValueError (too_many_modes_msg max_modes n_modes))
  else
    Ok ((fst st ++ ", " ++ str_of_char idx ++ "R")%string,
        (snd st ++ str_of_char idx)%string).

(** The name given to the axis of mode [mode]: the name of the index of the
    factor matrix when it has one, ["Mode {mode}"] otherwise. *)
Definition axis_name (mode : nat) (fm : DataFrame) : string :=
  match df_index_name fm with
  | Some name => name
  | None => ("Mode " ++ str_of_nat mode)%string
  end.

(** One round of the loop that collects axis names and coordinates. *)
Definition cp_label_step (st : gmap string (list label) * list string)
    (entry : nat * factor_matrix) : result (gmap string (list label) * list string) :=
  match snd entry with
  | Matrix _ => Raise (AttributeError "'numpy.ndarray' object has no attribute 'index'")
  | LabelledMatrix fm =>
      let mode_name := axis_name (fst entry) fm in
      Ok (<[mode_name := df_index_values fm]> (fst st), snd st ++ [mode_name])
  end.

(** The weights agree with rank [rank]: given weights hold [rank] elements;
    omitted weights take their length from the first factor matrix. *)
Definition weights_fit (weights : option ndarray) (fms : list factor_matrix)
    (rank : nat) : Prop :=
  match weights with
  | Some w => size_of (shape w) = rank
  | None => fms <> []
  end.

(** The weight vector the contraction receives. *)
Definition weights_used (weights : option ndarray) (rank : nat) : ndarray :=
  match weights with
  | Some w => flattened w
  | None => ones rank
  end.

(** What one round of the label loop does to its state on a data frame. *)
Definition record_label (st : gmap string (list label) * list string)
    (entry : nat * DataFrame) : gmap string (list label) * list string :=
  (<[axis_name (fst entry) (snd entry) := df_index_values (snd entry)]> (fst st),
   snd st ++ [axis_name (fst entry) (snd entry)]).

Definition cp_to_tensor (cp_tensor : option ndarray * list factor_matrix)
  : result dense :=
  weights <- cp_weights cp_tensor ;;
  subscripts <- for_each (cp_subscript_step (length (snd cp_tensor)))
                  (seq 0 (length (snd cp_tensor))) ("R"%string, ""%string) ;;
  tensor <- einsum (fst subscripts ++ " -> " ++ snd subscripts)%string
              (weights :: map factor_values (snd cp_tensor)) ;;
  if negb (is_labelled_cp cp_tensor) then Ok (PlainTensor tensor)
  else
    labels <- for_each cp_label_step (enumerate (snd cp_tensor)) (∅, []) ;;
    Ok (LabelledTensor
          {| da_values := tensor; da_dims := snd labels; da_coords := fst labels |}).

(** *** tucker_to_tensor *)

Definition tucker_subscript_step (n_modes : nat) (st : string * string * string)
    (mode : nat) : result (string * string * string) :=
  let idx := mode_symbol mode in
  let rank_idx := rank_symbol mode in
  if ord "z" <? ord idx then
    let max_modes := (Z.of_nat (ord "a") - Z.of_nat (ord "z"))%Z in
    Raise (ValueError (too_many_modes_msg max_modes n_modes))
  else
    Ok ((fst (fst st) ++ str_of_char rank_idx)%string,
        (snd (fst st) ++ ", " ++ str_of_char idx ++ str_of_char rank_idx)%string,
        (snd st ++ str_of_char idx)%string).

Definition tucker_to_tensor (tucker_tensor : ndarray * list factor_matrix)
  : result dense :=
  subscripts <- for_each (tucker_subscript_step (length (snd tucker_tensor)))
                  (seq 0 (length (snd tucker_tensor)))
                  (""%string, ""%string, ""%string) ;;
  tensor <- einsum (fst (fst subscripts) ++ snd (fst subscripts) ++ " -> "
                      ++ snd subscripts)%string
              (fst tucker_tensor :: map factor_values (snd tucker_tensor)) ;;
  Ok (PlainTensor tensor).

(** *** Labels set aside *)

(** A factor matrix without its labels. *)
Definition strip_labels (fm : factor_matrix) : factor_matrix := Matrix (factor_values fm).

(** The values of a returned tensor, whether labelled or not. *)
Definition result_values (r : result dense) : result ndarray :=
  t <- r ;; Ok (dense_values t).

End Arrays.

Arguments ndarray A : clear implicits.
Arguments DataFrame A : clear implicits.
Arguments DataArray A : clear implicits.
Arguments array_like A : clear implicits.
Arguments factor_matrix A : clear implicits.
Arguments dense A : clear implicits.
Arguments arguments A : clear implicits.

(** ** Sample inputs *)

Definition sample_tensor : ndarray Z := NdArray [2; 3] [1; 2; 3; 4; 5; 6]%Z.
Definition empty_rows : ndarray Z := NdArray [0; 3] [].
Definition empty_columns : ndarray Z := NdArray [2; 0] [].

Definition sample_A0 : ndarray Z := NdArray [2; 2] [1; 2; 3; 4]%Z.
Definition sample_A1 : ndarray Z := NdArray [3; 2] [1; 0; 0; 1; 1; 1]%Z.
Definition sample_factors : list (factor_matrix Z) := [Matrix sample_A0; Matrix sample_A1].
Definition sample_weights : ndarray Z := NdArray [2] [10; 100]%Z.
Definition sample_column_weights : ndarray Z := NdArray [2; 1] [10; 100]%Z.
Definition sample_core : ndarray Z := NdArray [2; 2] [1; 0; 0; 1]%Z.
Definition many_factors : list (factor_matrix Z) := repeat (Matrix sample_A0) 27.

Definition frame_x : DataFrame Z :=
  {| df_values := sample_A0;
     df_index_name := Some "x"%string;
     df_index_values := [LabelInt 0; LabelInt 1] |}.

Definition frame_unnamed : DataFrame Z :=
  {| df_values := sample_A1;
     df_index_name := None;
     df_index_values := [LabelStr "a"; LabelStr "b"; LabelStr "c"] |}.

Definition frame_x_again : DataFrame Z :=
  {| df_values := sample_A0;
     df_index_name := Some "x"%string;
     df_index_values := [LabelStr "p"; LabelStr "q"] |}.

Definition labelled_factors : list (DataFrame Z) := [frame_x; frame_unnamed].

(** A signature in which [mode] has a default value. *)
Definition signature_with_default : signature :=
  [("tensor"%string, None); ("mode"%string, Some (PyInt 0)); ("axis"%string, Some PyNone)].

Definition empty_weights : ndarray Z := NdArray [0] [].
Definition rankless_factor : ndarray Z := NdArray [2; 0] [].

(** [np.eye(n)] with integer entries. *)
Definition eye (n : nat) : ndarray Z :=
  build [n; n] (fun idx => if nth 0 idx 0 =? nth 1 idx 0 then 1%Z else 0%Z).
(** * Facts *)

(** ** Lists, shapes and multi-indices *)

Lemma size_of_app (s t : list nat) : size_of (s ++ t) = size_of s * size_of t.
Proof.
  induction s as [|n s IH]; simpl.
  - lia.
  - rewrite IH. lia.
Qed.

Lemma length_flat_map_const {X Y : Type} (f : X -> list Y) (k : nat) (l : list X) :
  (forall x, length (f x) = k) -> length (flat_map f l) = length l * k.
Proof.
  intros Hk. induction l as [|x l IH]; simpl.
  - reflexivity.
  - rewrite length_app, Hk, IH. reflexivity.
Qed.

Lemma length_indices (s : list nat) : length (indices s) = size_of s.
Proof.
  induction s as [|n s IH]; simpl.
  - reflexivity.
  - rewrite (length_flat_map_const _ (size_of s)).
    + now rewrite length_seq.
    + intros i. now rewrite length_map.
Qed.

Lemma indices_valid (s idx : list nat) : In idx (indices s) -> valid_index s idx.
Proof.
  revert idx. induction s as [|n s IH]; simpl; intros idx Hin.
  - destruct Hin as [<-|[]]. constructor.
  - apply in_flat_map in Hin. destruct Hin as (i & Hi & Hin).
    apply in_map_iff in Hin. destruct Hin as (r & <- & Hr).
    apply in_seq in Hi. constructor.
    + lia.
    + now apply IH.
Qed.

Lemma valid_index_length (s idx : list nat) : valid_index s idx -> length idx = length s.
Proof. apply Forall2_length. Qed.

Lemma ravel_lt (s idx : list nat) : valid_index s idx -> ravel s idx < size_of s.
Proof.
  intros Hv. induction Hv as [|i n idx s Hi Hv IH]; simpl.
  - lia.
  - nia.
Qed.

Lemma nth_flat_map_const {Y : Type} (f : nat -> list Y) (k : nat) (d : Y) :
  (forall i, length (f i) = k) ->
  forall n a i j, i < n -> j < k ->
    nth (i * k + j) (flat_map f (seq a n)) d = nth j (f (a + i)) d.
Proof.
  intros Hk. induction n as [|n IH]; intros a i j Hi Hj.
  - lia.
  - simpl. destruct i as [|i].
    + rewrite app_nth1 by (rewrite Hk; lia).
      simpl. now rewrite Nat.add_0_r.
    + rewrite app_nth2 by (rewrite Hk; lia).
      rewrite Hk.
      replace (S i * k + j - k) with (i * k + j) by lia.
      rewrite IH by lia. f_equal. f_equal. lia.
Qed.

Lemma nth_indices (s idx d : list nat) :
  valid_index s idx -> nth (ravel s idx) (indices s) d = idx.
Proof.
  intros Hv. induction Hv as [|i n idx s Hi Hv IH]; simpl.
  - reflexivity.
  - rewrite (nth_flat_map_const (fun i => map (cons i) (indices s)) (size_of s)).
    + simpl.
      rewrite (nth_indep _ d (i :: d)) by (rewrite length_map, length_indices; now apply ravel_lt).
      rewrite (map_nth (cons i)). now rewrite IH.
    + intros i'. now rewrite length_map, length_indices.
    + exact Hi.
    + now apply ravel_lt.
Qed.

Lemma flat_map_seq_blocks (k : nat) (n a : nat) :
  flat_map (fun i => seq (i * k) k) (seq a n) = seq (a * k) (n * k).
Proof.
  revert a. induction n as [|n IH]; intros a; simpl.
  - reflexivity.
  - rewrite IH. rewrite seq_app. f_equal. f_equal. lia.
Qed.

Lemma map_add_seq (b c k : nat) : map (fun r => b + r) (seq c k) = seq (b + c) k.
Proof.
  revert c. induction k as [|k IH]; intros c; simpl.
  - reflexivity.
  - rewrite IH. f_equal. f_equal. lia.
Qed.

Lemma map_ravel_indices (s : list nat) :
  map (ravel s) (indices s) = seq 0 (size_of s).
Proof.
  induction s as [|n s IH]; simpl.
  - reflexivity.
  - rewrite flat_map_concat_map, concat_map, map_map.
    rewrite <- flat_map_concat_map.
    transitivity (flat_map (fun i => seq (i * size_of s) (size_of s)) (seq 0 n)).
    + apply flat_map_ext. intros i.
      rewrite map_map. simpl.
      rewrite <- (map_map (ravel s) (fun r => i * size_of s + r)), IH.
      rewrite map_add_seq. f_equal. lia.
    + apply (flat_map_seq_blocks (size_of s) n 0).
Qed.

Lemma map_nth_seq_id {X : Type} (l : list X) (d : X) :
  map (fun k => nth k l d) (seq 0 (length l)) = l.
Proof.
  induction l as [|x l IH]; simpl.
  - reflexivity.
  - f_equal. rewrite <- seq_shift, map_map. exact IH.
Qed.

Lemma length_insert_at {X} (i : nat) (x : X) (l : list X) :
  length (insert_at i x l) = S (length l).
Proof.
  unfold insert_at. rewrite length_app. simpl.
  rewrite length_firstn, length_skipn. lia.
Qed.

Lemma length_remove_at {X} (i : nat) (l : list X) :
  i < length l -> length (remove_at i l) = length l - 1.
Proof.
  intros Hi. unfold remove_at. rewrite length_app, length_firstn, length_skipn. lia.
Qed.

Lemma nth_insert_at {X} (i k : nat) (x d : X) (l : list X) :
  i <= length l ->
  nth k (insert_at i x l) d =
    if k <? i then nth k l d else if k =? i then x else nth (k - 1) l d.
Proof.
  intros Hi. unfold insert_at.
  destruct (Nat.ltb_spec k i) as [Hk|Hk].
  - rewrite app_nth1 by (rewrite length_firstn; lia).
    now rewrite nth_firstn, (proj2 (Nat.ltb_lt k i) Hk).
  - rewrite app_nth2 by (rewrite length_firstn; lia).
    rewrite length_firstn, Nat.min_l by lia.
    destruct (Nat.eqb_spec k i) as [->|Hne].
    + now rewrite Nat.sub_diag.
    + destruct (k - i) as [|r] eqn:Hr; [lia|]. simpl.
      rewrite nth_skipn. f_equal. lia.
Qed.

Lemma nth_remove_at {X} (i k : nat) (d : X) (l : list X) :
  i <= length l ->
  nth k (remove_at i l) d = if k <? i then nth k l d else nth (S k) l d.
Proof.
  intros Hi. unfold remove_at.
  destruct (Nat.ltb_spec k i) as [Hk|Hk].
  - rewrite app_nth1 by (rewrite length_firstn; lia).
    now rewrite nth_firstn, (proj2 (Nat.ltb_lt k i) Hk).
  - rewrite app_nth2 by (rewrite length_firstn; lia).
    rewrite length_firstn, Nat.min_l by lia.
    rewrite nth_skipn. f_equal. lia.
Qed.

Lemma nth_map_seq {X} (f : nat -> X) (a n k : nat) (d : X) :
  k < n -> nth k (map f (seq a n)) d = f (a + k).
Proof.
  intros Hk. rewrite (nth_indep _ d (f 0)) by (now rewrite length_map, length_seq).
  rewrite map_nth. now rewrite seq_nth.
Qed.

Lemma filter_all {X} (p : X -> bool) (l : list X) :
  (forall x, In x l -> p x = true) -> List.filter p l = l.
Proof.
  induction l as [|x l IH]; simpl; intros Hp.
  - reflexivity.
  - rewrite Hp by now left. f_equal. apply IH. intros y Hy. apply Hp. now right.
Qed.

Lemma filter_neq_seq (m n : nat) :
  m < n ->
  List.filter (fun k => negb (k =? m)) (seq 0 n) = seq 0 m ++ seq (S m) (n - S m).
Proof.
  intros Hm. replace n with (m + S (n - S m)) at 1 by lia.
  rewrite seq_app, List.filter_app. simpl. rewrite Nat.eqb_refl. simpl.
  rewrite !filter_all; [reflexivity| |].
  - intros k Hk. apply in_seq in Hk. destruct (Nat.eqb_spec k m); [lia|reflexivity].
  - intros k Hk. apply in_seq in Hk. destruct (Nat.eqb_spec k m); [lia|reflexivity].
Qed.

Lemma index_of_app_in (j : nat) (l1 l2 : list nat) :
  In j l1 -> index_of j (l1 ++ l2) = index_of j l1.
Proof.
  induction l1 as [|x l1 IH]; simpl; intros Hin.
  - destruct Hin.
  - destruct (Nat.eqb_spec x j) as [_|Hne]; [reflexivity|].
    f_equal. apply IH. destruct Hin; [congruence|assumption].
Qed.

Lemma index_of_app_notin (j : nat) (l1 l2 : list nat) :
  ~ In j l1 -> index_of j (l1 ++ l2) = length l1 + index_of j l2.
Proof.
  induction l1 as [|x l1 IH]; simpl; intros Hnin.
  - reflexivity.
  - destruct (Nat.eqb_spec x j) as [Heq|Hne].
    + exfalso. apply Hnin. now left.
    + f_equal. apply IH. intros Hin. apply Hnin. now right.
Qed.

Lemma index_of_seq (j a k : nat) : a <= j < a + k -> index_of j (seq a k) = j - a.
Proof.
  revert a. induction k as [|k IH]; intros a Hj; simpl.
  - lia.
  - destruct (Nat.eqb_spec a j) as [->|Hne].
    + lia.
    + rewrite IH by lia. lia.
Qed.

Lemma order_to_front (m n : nat) :
  m < n ->
  insert_at 0 m (List.filter (fun k => negb (k =? m)) (seq 0 n))
  = m :: seq 0 m ++ seq (S m) (n - S m).
Proof. intros Hm. unfold insert_at. simpl. now rewrite filter_neq_seq. Qed.

Lemma order_from_front (m n : nat) :
  m < n ->
  insert_at m 0 (List.filter (fun k => negb (k =? 0)) (seq 0 n))
  = seq 1 m ++ 0 :: seq (S m) (n - S m).
Proof.
  intros Hm. rewrite filter_neq_seq by lia. simpl.
  unfold insert_at.
  replace (n - 1) with (m + (n - S m)) by lia.
  rewrite seq_app, firstn_app, skipn_app, length_seq.
  rewrite firstn_all2, skipn_all2 by (rewrite length_seq; lia).
  rewrite Nat.sub_diag. simpl. now rewrite app_nil_r.
Qed.

Lemma is_permutation_to_front (m n : nat) :
  m < n -> is_permutation (m :: seq 0 m ++ seq (S m) (n - S m)) n = true.
Proof.
  intros Hm. unfold is_permutation. apply andb_true_intro. split.
  - apply Nat.eqb_eq. simpl. rewrite length_app, !length_seq. lia.
  - apply forallb_forall. intros j Hj. apply in_seq in Hj.
    apply existsb_exists. exists j. split; [|apply Nat.eqb_refl].
    destruct (Nat.lt_total j m) as [Hlt|[->|Hgt]].
    + right. apply in_or_app. left. apply in_seq. lia.
    + now left.
    + right. apply in_or_app. right. apply in_seq. lia.
Qed.

Lemma is_permutation_from_front (m n : nat) :
  m < n -> is_permutation (seq 1 m ++ 0 :: seq (S m) (n - S m)) n = true.
Proof.
  intros Hm. unfold is_permutation. apply andb_true_intro. split.
  - apply Nat.eqb_eq. rewrite length_app. simpl. rewrite !length_seq. lia.
  - apply forallb_forall. intros j Hj. apply in_seq in Hj.
    apply existsb_exists. exists j. split; [|apply Nat.eqb_refl].
    apply in_or_app.
    destruct (Nat.eq_dec j 0) as [->|Hj0]; [right; now left|].
    destruct (Nat.le_gt_cases j m) as [Hle|Hgt].
    + left. apply in_seq. lia.
    + right. right. apply in_seq. lia.
Qed.

Lemma shape_to_front (m : nat) (s : list nat) :
  m < length s ->
  map (fun ax => nth ax s 0) (m :: seq 0 m ++ seq (S m) (length s - S m))
  = nth m s 0 :: remove_at m s.
Proof.
  intros Hm. simpl. f_equal.
  apply (nth_ext _ _ 0 0).
  - rewrite length_map, length_app, !length_seq, length_remove_at by lia. lia.
  - intros k Hk. rewrite length_map, length_app, !length_seq in Hk.
    rewrite nth_remove_at by lia.
    rewrite map_app.
    destruct (Nat.ltb_spec k m) as [Hlt|Hge].
    + rewrite app_nth1 by (rewrite length_map, length_seq; lia).
      now rewrite nth_map_seq.
    + rewrite app_nth2 by (rewrite length_map, length_seq; lia).
      rewrite length_map, length_seq.
      rewrite nth_map_seq by lia. f_equal. lia.
Qed.

Lemma source_index_to_front (m : nat) (idx : list nat) :
  m < length idx ->
  map (fun j => nth (index_of j (m :: seq 0 m ++ seq (S m) (length idx - S m))) idx 0)
    (seq 0 (length idx))
  = insert_at m (hd 0 idx) (tl idx).
Proof.
  intros Hm. destruct idx as [|i rest]; [simpl in Hm; lia|].
  simpl length in *. simpl hd. simpl tl.
  apply (nth_ext _ _ 0 0).
  - rewrite length_map, length_seq, length_insert_at. reflexivity.
  - intros k Hk. rewrite length_map, length_seq in Hk.
    rewrite nth_map_seq by lia. rewrite nth_insert_at by lia.
    cbn [index_of Nat.add].
    destruct (Nat.eqb_spec m k) as [->|Hne].
    + rewrite Nat.ltb_irrefl, Nat.eqb_refl. reflexivity.
    + destruct (Nat.ltb_spec k m) as [Hlt|Hge].
      * rewrite index_of_app_in by (apply in_seq; lia).
        rewrite index_of_seq by lia. simpl. f_equal. lia.
      * destruct (Nat.eqb_spec k m) as [->|_]; [congruence|].
        rewrite index_of_app_notin by (rewrite in_seq; lia).
        rewrite length_seq, index_of_seq by lia.
        replace (m + (k - S m)) with (k - 1) by lia. reflexivity.
Qed.

Lemma shape_from_front (m : nat) (s : list nat) :
  m < length s ->
  map (fun ax => nth ax s 0) (seq 1 m ++ 0 :: seq (S m) (length s - S m))
  = insert_at m (hd 0 s) (tl s).
Proof.
  intros Hm. destruct s as [|n rest]; [simpl in Hm; lia|].
  simpl length in *. simpl hd. simpl tl.
  apply (nth_ext _ _ 0 0).
  - rewrite length_map, length_app, length_insert_at. simpl. rewrite !length_seq. lia.
  - intros k Hk. rewrite length_map, length_app in Hk. simpl in Hk. rewrite !length_seq in Hk.
    rewrite nth_insert_at by lia. rewrite map_app.
    destruct (Nat.ltb_spec k m) as [Hlt|Hge].
    + rewrite app_nth1 by (rewrite length_map, length_seq; lia).
      rewrite nth_map_seq by lia. reflexivity.
    + rewrite app_nth2 by (rewrite length_map, length_seq; lia).
      rewrite length_map, length_seq.
      destruct (Nat.eqb_spec k m) as [->|Hne].
      * rewrite Nat.sub_diag. reflexivity.
      * destruct (k - m) as [|r] eqn:Hr; [lia|].
        cbn [map nth]. rewrite nth_map_seq by lia.
        replace (S m + r) with (S (k - 1)) by lia. reflexivity.
Qed.

Lemma source_index_from_front (m : nat) (idx : list nat) :
  m < length idx ->
  map (fun j => nth (index_of j (seq 1 m ++ 0 :: seq (S m) (length idx - S m))) idx 0)
    (seq 0 (length idx))
  = nth m idx 0 :: remove_at m idx.
Proof.
  intros Hm.
  apply (nth_ext _ _ 0 0).
  - rewrite length_map, length_seq. simpl. rewrite length_remove_at by lia. lia.
  - intros k Hk. rewrite length_map, length_seq in Hk.
    rewrite nth_map_seq by lia. cbn [Nat.add].
    destruct k as [|k].
    + rewrite index_of_app_notin by (rewrite in_seq; lia).
      rewrite length_seq. simpl. now rewrite Nat.add_0_r.
    + cbn [nth]. rewrite nth_remove_at by lia.
      destruct (Nat.ltb_spec k m) as [Hlt|Hge].
      * rewrite index_of_app_in by (apply in_seq; lia).
        rewrite index_of_seq by lia. f_equal. lia.
      * rewrite index_of_app_notin by (rewrite in_seq; lia).
        rewrite length_seq. cbn [index_of Nat.eqb].
        rewrite index_of_seq by lia.
        replace (m + S (S k - S m)) with (S k) by lia. reflexivity.
Qed.

Lemma insert_remove_at {X : Type} (m : nat) (l : list X) (d : X) :
  m < length l -> insert_at m (nth m l d) (remove_at m l) = l.
Proof.
  intros Hm. apply (nth_ext _ _ d d).
  - rewrite length_insert_at, length_remove_at by lia. lia.
  - intros k Hk. rewrite length_insert_at, length_remove_at in Hk by lia.
    rewrite nth_insert_at by (rewrite length_remove_at; lia).
    destruct (Nat.ltb_spec k m) as [Hlt|Hge].
    + rewrite nth_remove_at by lia. now rewrite (proj2 (Nat.ltb_lt k m) Hlt).
    + destruct (Nat.eqb_spec k m) as [->|Hne]; [reflexivity|].
      rewrite nth_remove_at by lia.
      destruct (Nat.ltb_spec (k - 1) m) as [Hlt'|_]; [lia|].
      f_equal. lia.
Qed.

Lemma valid_index_nth (s idx : list nat) (m : nat) :
  valid_index s idx -> m < length s -> nth m idx 0 < nth m s 0.
Proof.
  intros Hv. revert m. induction Hv as [|i n idx s Hi Hv IH]; intros m Hm; simpl in *.
  - lia.
  - destruct m as [|m]; [exact Hi|]. apply IH. lia.
Qed.

Lemma valid_index_remove_at (s idx : list nat) (m : nat) :
  valid_index s idx -> valid_index (remove_at m s) (remove_at m idx).
Proof.
  intros Hv. revert m. induction Hv as [|i n idx s Hi Hv IH]; intros m.
  - destruct m; constructor.
  - destruct m as [|m].
    + exact Hv.
    + unfold remove_at in *. simpl. constructor; [exact Hi|]. apply IH.
Qed.

Lemma valid_index_insert_at (s idx : list nat) (m i n : nat) :
  valid_index s idx -> i < n -> valid_index (insert_at m n s) (insert_at m i idx).
Proof.
  intros Hv Hi. revert m. induction Hv as [|j k idx s Hj Hv IH]; intros m.
  - destruct m; repeat constructor; exact Hi.
  - destruct m as [|m].
    + unfold insert_at. simpl. repeat constructor; assumption.
    + unfold insert_at in *. simpl. constructor; [exact Hj|]. apply IH.
Qed.

Lemma size_of_remove_at (s : list nat) (m : nat) :
  m < length s -> nth m s 0 * size_of (remove_at m s) = size_of s.
Proof.
  revert m. induction s as [|n s IH]; intros m Hm; simpl in *.
  - lia.
  - destruct m as [|m].
    + reflexivity.
    + unfold remove_at in *. simpl. rewrite <- (IH m) by lia. lia.
Qed.

Lemma normalize_axis_index_valid (axis : Z) (nd : nat) :
  valid_axis axis nd -> normalize_axis_index axis nd = Ok (axis_position axis nd).
Proof.
  unfold valid_axis, normalize_axis_index. intros [Hlo Hhi].
  rewrite (proj2 (Z.leb_le _ _) Hlo), (proj2 (Z.ltb_lt _ _) Hhi). reflexivity.
Qed.

Lemma axis_position_lt (axis : Z) (nd : nat) :
  valid_axis axis nd -> axis_position axis nd < nd.
Proof.
  unfold valid_axis, axis_position. intros [Hlo Hhi].
  destruct (Z.ltb_spec axis 0); lia.
Qed.

Lemma tuple_item_valid (t : list nat) (axis : Z) :
  valid_axis axis (length t) ->
  tuple_item t axis = Ok (nth (axis_position axis (length t)) t 0).
Proof.
  unfold valid_axis, tuple_item, axis_position. intros [Hlo Hhi].
  destruct (Z.ltb_spec axis 0).
  - rewrite (proj2 (Z.leb_le 0 _)), (proj2 (Z.ltb_lt _ _)) by lia. reflexivity.
  - rewrite (proj2 (Z.leb_le 0 _)), (proj2 (Z.ltb_lt _ _)) by lia. reflexivity.
Qed.

(** ** Subscripts *)

Lemma list_ascii_of_string_app (s t : string) :
  list_ascii_of_string (s ++ t)%string = list_ascii_of_string s ++ list_ascii_of_string t.
Proof.
  induction s as [|c s IH]; simpl.
  - reflexivity.
  - now rewrite IH.
Qed.

Lemma split_on_no_sep (sep : ascii) (t : list ascii) :
  ~ In sep t -> split_on sep t = [t].
Proof.
  induction t as [|c t IH]; simpl; intros Hnin.
  - reflexivity.
  - destruct (Ascii.eqb_spec c sep) as [->|Hne].
    + exfalso. apply Hnin. now left.
    + rewrite IH; [reflexivity|]. intros Hin. apply Hnin. now right.
Qed.

Lemma split_on_app (sep : ascii) (t rest : list ascii) :
  ~ In sep t -> split_on sep (t ++ sep :: rest) = t :: split_on sep rest.
Proof.
  induction t as [|c t IH]; simpl; intros Hnin.
  - now rewrite Ascii.eqb_refl.
  - destruct (Ascii.eqb_spec c sep) as [->|Hne].
    + exfalso. apply Hnin. now left.
    + rewrite IH; [reflexivity|]. intros Hin. apply Hnin. now right.
Qed.

Lemma split_on_join (ins : list (list ascii)) :
  ins <> [] -> (forall t, In t ins -> ~ In ","%char t) ->
  split_on "," (join_terms ins) = ins.
Proof.
  destruct ins as [|t ts]; [congruence|]. intros _ Hsep. simpl.
  revert t Hsep. induction ts as [|t' ts IH]; intros t Hsep; simpl.
  - rewrite app_nil_r. apply split_on_no_sep. apply Hsep. now left.
  - rewrite split_on_app by (apply Hsep; now left).
    f_equal. apply IH. intros u Hu. apply Hsep. now right.
Qed.

Lemma split_arrow_app (lhs out : list ascii) :
  ~ In "-"%char lhs -> split_arrow (lhs ++ "-"%char :: ">"%char :: out) = Some (lhs, out).
Proof.
  induction lhs as [|c lhs IH]; intros Hnin.
  - reflexivity.
  - cbn [app split_arrow].
    destruct (lhs ++ "-"%char :: ">"%char :: out) as [|c' r] eqn:Hr.
    + destruct lhs; discriminate.
    + destruct (Ascii.eqb_spec c "-") as [->|Hne].
      * exfalso. apply Hnin. now left.
      * cbn [andb]. rewrite IH; [reflexivity|].
        intros Hin. apply Hnin. now right.
Qed.

Lemma is_alpha_not (c sep : ascii) :
  is_alpha c = true -> is_alpha sep = false -> c <> sep.
Proof. intros Hc Hsep ->. congruence. Qed.

Lemma parse_subscripts_joined (s : string) (ins : list (list ascii)) (out : list ascii) :
  List.filter no_blank (list_ascii_of_string s)
    = join_terms ins ++ "-"%char :: ">"%char :: out ->
  ins <> [] ->
  forallb is_alpha (concat ins) = true ->
  parse_subscripts s = Some (ins, out).
Proof.
  intros Hchars Hne Halpha. unfold parse_subscripts. rewrite Hchars.
  assert (forall t c, In t ins -> In c t -> is_alpha c = true) as Hin.
  { intros t c Ht Hc. rewrite forallb_forall in Halpha. apply Halpha.
    apply in_concat. eauto. }
  rewrite split_arrow_app.
  - rewrite split_on_join; [reflexivity|exact Hne|].
    intros t Ht Hc. specialize (Hin t _ Ht Hc). discriminate.
  - destruct ins as [|t ts]; [congruence|]. simpl.
    intros Hdash. apply in_app_or in Hdash. destruct Hdash as [Hd|Hd].
    + specialize (Hin t _ (or_introl eq_refl) Hd). discriminate.
    + apply in_flat_map in Hd. destruct Hd as (t' & Ht' & [Hd|Hd]).
      * discriminate.
      * specialize (Hin t' _ (or_intror Ht') Hd). discriminate.
Qed.

Lemma mem_char_In (c : ascii) (l : list ascii) : mem_char c l = true <-> In c l.
Proof.
  unfold mem_char. rewrite existsb_exists. split.
  - intros (x & Hx & Heq). apply Ascii.eqb_eq in Heq. now subst.
  - intros Hin. exists c. split; [exact Hin|apply Ascii.eqb_refl].
Qed.

Lemma assoc_char_graph (ext : ascii -> nat) (c : ascii) (l : list ascii) :
  In c l -> assoc_char c (map (fun x => (x, ext x)) l) = Some (ext c).
Proof.
  induction l as [|x l IH]; simpl; intros Hin.
  - destruct Hin.
  - destruct (Ascii.eqb_spec c x) as [->|Hne]; [reflexivity|].
    apply IH. destruct Hin; [congruence|assumption].
Qed.

Lemma lookup_label_graph (ext : ascii -> nat) (c : ascii) (l : list ascii) :
  In c l -> lookup_label (map (fun x => (x, ext x)) l) c = ext c.
Proof. intros Hin. unfold lookup_label. now rewrite assoc_char_graph. Qed.

Lemma combine_map_r {X Y : Type} (f : X -> Y) (l : list X) :
  combine l (map f l) = map (fun x => (x, f x)) l.
Proof. induction l as [|x l IH]; simpl; [reflexivity|now rewrite IH]. Qed.

Lemma dedup_In (seen l : list ascii) (c : ascii) : In c (dedup seen l) -> In c l.
Proof.
  revert seen. induction l as [|x l IH]; intros seen; simpl.
  - tauto.
  - destruct (mem_char x seen).
    + intros Hin. right. now apply (IH seen).
    + intros [->|Hin]; [now left|]. right. now apply (IH (x :: seen)).
Qed.

Lemma summed_labels_In (ins : list (list ascii)) (out : list ascii) (c : ascii) :
  In c (summed_labels ins out) -> In c (concat ins).
Proof.
  unfold summed_labels. intros Hin. apply dedup_In in Hin.
  apply List.filter_In in Hin. tauto.
Qed.

Lemma ord_mode_symbol (m : nat) : m <= 26 -> ord (mode_symbol m) = 97 + m.
Proof.
  intros Hm. unfold mode_symbol, ord, chr. change (nat_of_ascii "a") with 97.
  apply nat_ascii_embedding. lia.
Qed.

Lemma ord_rank_symbol (m : nat) : m <= 26 -> ord (rank_symbol m) = 65 + m.
Proof.
  intros Hm. unfold rank_symbol, ord, chr. change (nat_of_ascii "A") with 65.
  apply nat_ascii_embedding. lia.
Qed.

Lemma is_alpha_mode_symbol (m : nat) : m < 26 -> is_alpha (mode_symbol m) = true.
Proof.
  intros Hm. unfold is_alpha. rewrite ord_mode_symbol by lia.
  apply orb_true_intro. right. apply andb_true_intro.
  split; apply Nat.leb_le; lia.
Qed.

Lemma is_alpha_rank_symbol (m : nat) : m < 26 -> is_alpha (rank_symbol m) = true.
Proof.
  intros Hm. unfold is_alpha. rewrite ord_rank_symbol by lia.
  apply orb_true_intro. left. apply andb_true_intro.
  split; apply Nat.leb_le; lia.
Qed.

Lemma mode_symbol_inj (m m' : nat) :
  m < 26 -> m' < 26 -> mode_symbol m = mode_symbol m' -> m = m'.
Proof.
  intros Hm Hm' Heq. apply (f_equal ord) in Heq.
  rewrite !ord_mode_symbol in Heq by lia. lia.
Qed.

Lemma rank_symbol_inj (m m' : nat) :
  m < 26 -> m' < 26 -> rank_symbol m = rank_symbol m' -> m = m'.
Proof.
  intros Hm Hm' Heq. apply (f_equal ord) in Heq.
  rewrite !ord_rank_symbol in Heq by lia. lia.
Qed.

Lemma mode_symbol_not_rank (m m' : nat) :
  m < 26 -> m' < 26 -> mode_symbol m <> rank_symbol m'.
Proof.
  intros Hm Hm' Heq. apply (f_equal ord) in Heq.
  rewrite ord_mode_symbol, ord_rank_symbol in Heq by lia. lia.
Qed.

Lemma mode_symbol_not_R (m : nat) : m < 26 -> mode_symbol m <> "R"%char.
Proof.
  intros Hm Heq. apply (f_equal ord) in Heq.
  rewrite ord_mode_symbol in Heq by lia. change (ord "R") with 82 in Heq. lia.
Qed.

Lemma filter_over_flat_map {X Y : Type} (p : Y -> bool) (f : X -> list Y) (l : list X) :
  List.filter p (flat_map f l) = flat_map (fun x => List.filter p (f x)) l.
Proof.
  induction l as [|x l IH]; simpl.
  - reflexivity.
  - now rewrite List.filter_app, IH.
Qed.

Lemma flat_map_over_map {X Y Z : Type} (f : Y -> list Z) (g : X -> Y) (l : list X) :
  flat_map f (map g l) = flat_map (fun x => f (g x)) l.
Proof.
  induction l as [|x l IH]; simpl.
  - reflexivity.
  - now rewrite IH.
Qed.

Lemma no_blank_alpha (c : ascii) : is_alpha c = true -> no_blank c = true.
Proof.
  intros Hc. unfold no_blank. destruct (Ascii.eqb_spec c " ") as [->|_].
  - discriminate.
  - reflexivity.
Qed.

(** *** The subscript loops *)

Lemma cp_subscript_loop (n a k : nat) (st : string * string) :
  a + k <= 26 ->
  exists st' : string * string,
    for_each (cp_subscript_step n) (seq a k) st = Ok st' /\
    list_ascii_of_string (fst st')
      = list_ascii_of_string (fst st)
        ++ flat_map (fun m => [","; " "; mode_symbol m; "R"]%char) (seq a k) /\
    list_ascii_of_string (snd st')
      = list_ascii_of_string (snd st) ++ map mode_symbol (seq a k).
Proof.
  revert a st. induction k as [|k IH]; intros a st Hk; cbn [seq for_each flat_map map].
  - exists st. now rewrite !app_nil_r.
  - unfold cp_subscript_step at 1. cbv zeta.
    rewrite ord_mode_symbol by lia. change (ord "z") with 122.
    destruct (Nat.ltb_spec 122 (97 + a)) as [Hlt|_]; [lia|]. cbn [bind].
    destruct (IH (S a) ((fst st ++ ", " ++ str_of_char (mode_symbol a) ++ "R")%string,
                        (snd st ++ str_of_char (mode_symbol a))%string)) as (st' & Hloop & Hin & Hout).
    { lia. }
    exists st'. split; [exact Hloop|]. split.
    + rewrite Hin. cbn [fst]. rewrite list_ascii_of_string_app.
      rewrite <- app_assoc. reflexivity.
    + rewrite Hout. cbn [snd]. rewrite list_ascii_of_string_app.
      rewrite <- app_assoc. reflexivity.
Qed.

Lemma cp_subscript_overflow (n a k : nat) (st : string * string) :
  a <= 26 -> 26 < a + k ->
  for_each (cp_subscript_step n) (seq a k) st
  = Raise (ValueError (too_many_modes_msg (-26) n)).
Proof.
  revert a st. induction k as [|k IH]; intros a st Ha Hk; cbn [seq for_each].
  - lia.
  - unfold cp_subscript_step at 1. cbv zeta.
    rewrite ord_mode_symbol by lia. change (ord "z") with 122.
    destruct (Nat.ltb_spec 122 (97 + a)) as [Hlt|Hge].
    + reflexivity.
    + cbn [bind]. apply IH; lia.
Qed.

Lemma tucker_subscript_loop (n a k : nat) (st : string * string * string) :
  a + k <= 26 ->
  exists st' : string * string * string,
    for_each (tucker_subscript_step n) (seq a k) st = Ok st' /\
    list_ascii_of_string (fst (fst st'))
      = list_ascii_of_string (fst (fst st)) ++ map rank_symbol (seq a k) /\
    list_ascii_of_string (snd (fst st'))
      = list_ascii_of_string (snd (fst st))
        ++ flat_map (fun m => [","; " "; mode_symbol m; rank_symbol m]%char) (seq a k) /\
    list_ascii_of_string (snd st')
      = list_ascii_of_string (snd st) ++ map mode_symbol (seq a k).
Proof.
  revert a st. induction k as [|k IH]; intros a st Hk; cbn [seq for_each flat_map map].
  - exists st. now rewrite !app_nil_r.
  - unfold tucker_subscript_step at 1. cbv zeta.
    rewrite ord_mode_symbol by lia. change (ord "z") with 122.
    destruct (Nat.ltb_spec 122 (97 + a)) as [Hlt|_]; [lia|]. cbn [bind].
    match goal with
    | |- context [for_each _ _ ?s] => destruct (IH (S a) s) as (st' & Hloop & Hcore & Hin & Hout)
    end.
    { lia. }
    exists st'. split; [exact Hloop|]. repeat split.
    + rewrite Hcore. cbn [fst]. rewrite list_ascii_of_string_app.
      rewrite <- app_assoc. reflexivity.
    + rewrite Hin. cbn [fst snd]. rewrite list_ascii_of_string_app.
      rewrite <- app_assoc. reflexivity.
    + rewrite Hout. cbn [snd]. rewrite list_ascii_of_string_app.
      rewrite <- app_assoc. reflexivity.
Qed.

Lemma tucker_subscript_overflow (n a k : nat) (st : string * string * string) :
  a <= 26 -> 26 < a + k ->
  for_each (tucker_subscript_step n) (seq a k) st
  = Raise (ValueError (too_many_modes_msg (-25) n)).
Proof.
  revert a st. induction k as [|k IH]; intros a st Ha Hk; cbn [seq for_each].
  - lia.
  - unfold tucker_subscript_step at 1. cbv zeta.
    rewrite ord_mode_symbol by lia. change (ord "z") with 122.
    destruct (Nat.ltb_spec 122 (97 + a)) as [Hlt|Hge].
    + reflexivity.
    + cbn [bind]. apply IH; lia.
Qed.

Lemma flat_map_ext_in {X Y : Type} (f g : X -> list Y) (l : list X) :
  (forall x, In x l -> f x = g x) -> flat_map f l = flat_map g l.
Proof.
  induction l as [|x l IH]; simpl; intros Hfg.
  - reflexivity.
  - rewrite Hfg by now left. f_equal. apply IH. intros y Hy. apply Hfg. now right.
Qed.

Lemma nodup_chars_NoDup (l : list ascii) : nodup_chars l = true <-> List.NoDup l.
Proof.
  induction l as [|c l IH]; simpl.
  - split; [constructor|reflexivity].
  - rewrite andb_true_iff, negb_true_iff, IH. split.
    + intros [Hmem Hnd]. constructor; [|exact Hnd].
      intros Hin. apply mem_char_In in Hin. congruence.
    + intros Hnd. inversion Hnd as [|? ? Hnin Hnd']; subst. split; [|exact Hnd'].
      destruct (mem_char c l) eqn:Hmem; [|reflexivity].
      apply mem_char_In in Hmem. contradiction.
Qed.

Lemma NoDup_map_seq {Y : Type} (f : nat -> Y) (n : nat) :
  (forall i j, i < n -> j < n -> f i = f j -> i = j) -> List.NoDup (map f (seq 0 n)).
Proof.
  intros Hinj. apply NoDup_map_NoDup_ForallPairs.
  - intros i j Hi Hj. apply in_seq in Hi, Hj. apply Hinj; lia.
  - apply seq_NoDup.
Qed.

Lemma NoDup_mode_symbols (n : nat) : n <= 26 -> List.NoDup (mode_symbols n).
Proof.
  intros Hn. apply NoDup_map_seq. intros i j Hi Hj. apply mode_symbol_inj; lia.
Qed.

Lemma In_mode_symbols (n : nat) (c : ascii) :
  In c (mode_symbols n) <-> exists m, m < n /\ c = mode_symbol m.
Proof.
  unfold mode_symbols. rewrite in_map_iff. split.
  - intros (m & <- & Hm). apply in_seq in Hm. exists m. split; [lia|reflexivity].
  - intros (m & Hm & ->). exists m. split; [reflexivity|]. apply in_seq. lia.
Qed.

Lemma assoc_char_combine_nth (l : list ascii) (v : list nat) (m : nat) (d : ascii) :
  List.NoDup l -> length v = length l -> m < length l ->
  assoc_char (nth m l d) (combine l v) = Some (nth m v 0).
Proof.
  intros Hnd. revert v m. induction Hnd as [|c l Hnin Hnd IH]; intros v m Hlen Hm.
  - simpl in Hm. lia.
  - destruct v as [|x v]; [discriminate|]. simpl in Hlen, Hm.
    destruct m as [|m]; simpl.
    + now rewrite Ascii.eqb_refl.
    + destruct (Ascii.eqb_spec (nth m l d) c) as [Heq|_].
      * exfalso. apply Hnin. rewrite <- Heq. apply nth_In. lia.
      * apply IH; lia.
Qed.

Lemma assoc_char_app_l (c : ascii) (e1 e2 : list (ascii * nat)) (n : nat) :
  assoc_char c e1 = Some n -> assoc_char c (e1 ++ e2) = Some n.
Proof.
  induction e1 as [|[c' n'] e1 IH]; simpl.
  - discriminate.
  - destruct (Ascii.eqb c c'); [trivial|exact IH].
Qed.

Lemma assoc_char_app_r (c : ascii) (e1 e2 : list (ascii * nat)) :
  ~ In c (map fst e1) -> assoc_char c (e1 ++ e2) = assoc_char c e2.
Proof.
  induction e1 as [|[c' n'] e1 IH]; simpl; intros Hnin.
  - reflexivity.
  - destruct (Ascii.eqb_spec c c') as [->|_].
    + exfalso. apply Hnin. now left.
    + apply IH. intros Hin. apply Hnin. now right.
Qed.

Lemma combine_app_same {X Y : Type} (l1 l2 : list X) (v1 v2 : list Y) :
  length l1 = length v1 -> combine (l1 ++ l2) (v1 ++ v2) = combine l1 v1 ++ combine l2 v2.
Proof.
  revert v1. induction l1 as [|x l1 IH]; intros [|y v1] Hlen; try discriminate.
  - reflexivity.
  - simpl. f_equal. apply IH. simpl in Hlen. lia.
Qed.

Lemma map_fst_combine {X Y : Type} (l : list X) (v : list Y) :
  length l = length v -> map fst (combine l v) = l.
Proof.
  revert v. induction l as [|x l IH]; intros [|y v] Hlen; try discriminate.
  - reflexivity.
  - simpl. f_equal. apply IH. simpl in Hlen. lia.
Qed.

(** Looking up the [m]-th of the leading labels of an environment. *)
Lemma lookup_label_leading (l1 l2 : list ascii) (v1 v2 : list nat) (m : nat) (d : ascii) :
  List.NoDup l1 -> length v1 = length l1 -> m < length l1 ->
  lookup_label (combine (l1 ++ l2) (v1 ++ v2)) (nth m l1 d) = nth m v1 0.
Proof.
  intros Hnd Hlen Hm. unfold lookup_label.
  rewrite combine_app_same by lia.
  now rewrite (assoc_char_app_l _ _ _ _ (assoc_char_combine_nth l1 v1 m d Hnd Hlen Hm)).
Qed.

(** Looking up the [m]-th of the trailing labels. *)
Lemma lookup_label_trailing (l1 l2 : list ascii) (v1 v2 : list nat) (m : nat) (d : ascii) :
  List.NoDup l2 -> length v1 = length l1 -> length v2 = length l2 -> m < length l2 ->
  ~ In (nth m l2 d) l1 ->
  lookup_label (combine (l1 ++ l2) (v1 ++ v2)) (nth m l2 d) = nth m v2 0.
Proof.
  intros Hnd Hlen1 Hlen2 Hm Hnin. unfold lookup_label.
  rewrite combine_app_same by lia.
  rewrite assoc_char_app_r by (rewrite map_fst_combine by lia; exact Hnin).
  now rewrite assoc_char_combine_nth.
Qed.

Lemma dedup_seen (seen l : list ascii) :
  (forall c, In c l -> In c seen) -> dedup seen l = [].
Proof.
  induction l as [|c l IH]; simpl; intros Hsub.
  - reflexivity.
  - rewrite (proj2 (mem_char_In c seen)) by (apply Hsub; now left).
    apply IH. intros x Hx. apply Hsub. now right.
Qed.

Lemma dedup_fresh (seen l rest : list ascii) :
  List.NoDup l -> (forall c, In c l -> ~ In c seen) ->
  (forall c, In c rest -> In c l \/ In c seen) ->
  dedup seen (l ++ rest) = l.
Proof.
  revert seen. induction l as [|x l IH]; intros seen Hnd Hfresh Hrest; simpl.
  - apply dedup_seen. intros c Hc. destruct (Hrest c Hc) as [[]|Hs]. exact Hs.
  - inversion Hnd as [|? ? Hnin Hnd']; subst.
    destruct (mem_char x seen) eqn:Hmem.
    + apply mem_char_In in Hmem. exfalso. apply (Hfresh x); [now left|exact Hmem].
    + f_equal. apply IH.
      * exact Hnd'.
      * intros c Hc [->|Hs]; [contradiction|]. apply (Hfresh c); [now right|exact Hs].
      * intros c Hc. destruct (Hrest c Hc) as [[->|Hl]|Hs].
        -- right. now left.
        -- now left.
        -- right. now right.
Qed.

Lemma indices_vector (n : nat) : indices [n] = map (fun r => [r]) (seq 0 n).
Proof.
  simpl. induction (seq 0 n) as [|i l IH]; simpl.
  - reflexivity.
  - now rewrite IH.
Qed.

Lemma map_combine_pointwise {X Y X' Y' Z : Type} (F : X * Y -> Z) (G : X' * Y' -> Z)
    (l1 : list X) (l2 : list Y) (l1' : list X') (l2' : list Y')
    (dx : X) (dy : Y) (dx' : X') (dy' : Y') :
  length l1 = length l2 -> length l1' = length l2' -> length l1 = length l1' ->
  (forall i, i < length l1 ->
     F (nth i l1 dx, nth i l2 dy) = G (nth i l1' dx', nth i l2' dy')) ->
  map F (combine l1 l2) = map G (combine l1' l2').
Proof.
  intros H12 H12' H11' Hpt.
  apply (nth_ext _ _ (F (dx, dy)) (G (dx', dy'))).
  - rewrite !length_map, !length_combine. lia.
  - intros i Hi. rewrite length_map, length_combine in Hi.
    rewrite !map_nth, !combine_nth by lia. apply Hpt. lia.
Qed.

Lemma Forall2_pointwise {X Y : Type} (P : X -> Y -> Prop) (l1 : list X) (l2 : list Y)
    (dx : X) (dy : Y) :
  length l1 = length l2 ->
  (forall i, i < length l1 -> P (nth i l1 dx) (nth i l2 dy)) ->
  Forall2 P l1 l2.
Proof.
  revert l2. induction l1 as [|x l1 IH]; intros [|y l2] Hlen Hpt; try discriminate.
  - constructor.
  - constructor.
    + apply (Hpt 0). simpl. lia.
    + apply IH; [simpl in Hlen; lia|].
      intros i Hi. apply (Hpt (S i)). simpl. lia.
Qed.

(** *** The subscripts of cp_to_tensor *)

Lemma cp_extent_R (rank : nat) (ns : list nat) : cp_extent rank ns "R" = rank.
Proof. reflexivity. Qed.

Lemma cp_extent_mode (rank : nat) (ns : list nat) (m : nat) :
  m < 26 -> cp_extent rank ns (mode_symbol m) = nth m ns 0.
Proof.
  intros Hm. unfold cp_extent.
  destruct (Ascii.eqb_spec (mode_symbol m) "R") as [Heq|_].
  - now apply mode_symbol_not_R in Heq.
  - rewrite ord_mode_symbol by lia. f_equal. lia.
Qed.

Lemma nth_mode_symbols (n m : nat) (d : ascii) :
  m < n -> nth m (mode_symbols n) d = mode_symbol m.
Proof. intros Hm. unfold mode_symbols. now rewrite nth_map_seq. Qed.

Lemma length_mode_symbols (n : nat) : length (mode_symbols n) = n.
Proof. unfold mode_symbols. now rewrite length_map, length_seq. Qed.

Lemma R_not_mode_symbol (n : nat) : n <= 26 -> ~ In "R"%char (mode_symbols n).
Proof.
  intros Hn Hin. apply In_mode_symbols in Hin. destruct Hin as (m & Hm & Heq).
  symmetry in Heq. apply mode_symbol_not_R in Heq; [exact Heq|lia].
Qed.

Lemma cp_terms_alpha (n : nat) :
  n <= 26 -> forallb is_alpha (concat (cp_terms n) ++ mode_symbols n) = true.
Proof.
  intros Hn. apply forallb_forall. intros c Hc.
  apply in_app_or in Hc. destruct Hc as [Hc|Hc].
  - unfold cp_terms in Hc. cbn [concat app] in Hc. destruct Hc as [<-|Hc]; [reflexivity|].
    apply in_concat in Hc. destruct Hc as (t & Ht & Hc).
    apply in_map_iff in Ht. destruct Ht as (m & <- & Hm). apply in_seq in Hm.
    destruct Hc as [<-|[<-|[]]]; [|reflexivity].
    apply is_alpha_mode_symbol. lia.
  - apply In_mode_symbols in Hc. destruct Hc as (m & Hm & ->).
    apply is_alpha_mode_symbol. lia.
Qed.

Lemma cp_terms_cover (n : nat) :
  forallb (fun c => mem_char c (concat (cp_terms n))) (mode_symbols n) = true.
Proof.
  apply forallb_forall. intros c Hc. apply mem_char_In.
  apply In_mode_symbols in Hc. destruct Hc as (m & Hm & ->).
  unfold cp_terms. cbn [concat app]. right.
  apply in_concat. exists [mode_symbol m; "R"%char]. split.
  - apply in_map_iff. exists m. split; [reflexivity|]. apply in_seq. lia.
  - now left.
Qed.

Lemma cp_summed_labels (n : nat) :
  n <= 26 -> summed_labels (cp_terms n) (mode_symbols n) = ["R"%char].
Proof.
  intros Hn. unfold summed_labels, cp_terms. cbn [concat app List.filter].
  destruct (mem_char "R" (mode_symbols n)) eqn:Hmem;
    [apply mem_char_In in Hmem; now apply R_not_mode_symbol in Hmem|].
  cbn [negb dedup mem_char existsb]. f_equal.
  apply dedup_seen. intros c Hc. apply List.filter_In in Hc. destruct Hc as [Hc Hout].
  apply in_concat in Hc. destruct Hc as (t & Ht & Hc).
  apply in_map_iff in Ht. destruct Ht as (m & <- & Hm). apply in_seq in Hm.
  destruct Hc as [<-|[<-|[]]]; [|now left].
  exfalso. apply negb_true_iff in Hout.
  rewrite (proj2 (mem_char_In _ _)) in Hout; [discriminate|].
  apply In_mode_symbols. exists m. split; [lia|reflexivity].
Qed.

Lemma cp_subscripts_parse (n n_modes : nat) :
  n_modes <= 26 ->
  exists subscripts : string * string,
    for_each (cp_subscript_step n) (seq 0 n_modes) ("R"%string, ""%string) = Ok subscripts /\
    parse_subscripts (fst subscripts ++ " -> " ++ snd subscripts)%string
    = Some (cp_terms n_modes, mode_symbols n_modes).
Proof.
  intros Hn.
  destruct (cp_subscript_loop n 0 n_modes ("R"%string, ""%string)) as (st & Hloop & Hin & Hout);
    [lia|].
  exists st. split; [exact Hloop|].
  apply parse_subscripts_joined.
  - rewrite !list_ascii_of_string_app, Hin, Hout. cbn [fst snd list_ascii_of_string app].
    cbn [List.filter]. change (no_blank "R") with true. cbv iota.
    rewrite List.filter_app, filter_over_flat_map.
    cbn [List.filter]. change (no_blank " ") with false.
    change (no_blank "-") with true. change (no_blank ">") with true. cbv iota.
    rewrite (filter_all no_blank (map mode_symbol (seq 0 n_modes))).
    + unfold cp_terms, join_terms. rewrite flat_map_over_map.
      cbn [app]. f_equal. f_equal.
      apply flat_map_ext_in. intros m Hm. apply in_seq in Hm.
      cbn [List.filter]. change (no_blank ",") with true.
      change (no_blank " ") with false. change (no_blank "R") with true.
      rewrite no_blank_alpha by (apply is_alpha_mode_symbol; lia). reflexivity.
    + intros c Hc. apply no_blank_alpha. apply in_map_iff in Hc.
      destruct Hc as (m & <- & Hm). apply in_seq in Hm. apply is_alpha_mode_symbol. lia.
  - discriminate.
  - pose proof (cp_terms_alpha n_modes Hn) as Halpha.
    rewrite forallb_app in Halpha. apply andb_true_iff in Halpha. tauto.
Qed.

Lemma nth_map_in {X Y : Type} (f : X -> Y) (l : list X) (i : nat) (d : Y) (d' : X) :
  i < length l -> nth i (map f l) d = f (nth i l d').
Proof.
  intros Hi. rewrite (nth_indep _ d (f d')) by (now rewrite length_map).
  apply map_nth.
Qed.

Lemma lookup_label_last (l : list ascii) (v : list nat) (c : ascii) (x : nat) :
  length v = length l -> ~ In c l ->
  lookup_label (combine (l ++ [c]) (v ++ [x])) c = x.
Proof.
  intros Hlen Hnin.
  apply (lookup_label_trailing l [c] v [x] 0 c).
  - repeat constructor. intros [].
  - exact Hlen.
  - reflexivity.
  - simpl. lia.
  - exact Hnin.
Qed.

(** *** The subscripts of tucker_to_tensor *)

Lemma tucker_extent_mode (rs ns : list nat) (m : nat) :
  m < 26 -> tucker_extent rs ns (mode_symbol m) = nth m ns 0.
Proof.
  intros Hm. unfold tucker_extent. rewrite ord_mode_symbol by lia.
  destruct (Nat.ltb_spec (97 + m) 97) as [Hlt|_]; [lia|]. f_equal. lia.
Qed.

Lemma tucker_extent_rank (rs ns : list nat) (m : nat) :
  m < 26 -> tucker_extent rs ns (rank_symbol m) = nth m rs 0.
Proof.
  intros Hm. unfold tucker_extent. rewrite ord_rank_symbol by lia.
  destruct (Nat.ltb_spec (65 + m) 97) as [_|Hge]; [|lia]. f_equal. lia.
Qed.

Lemma nth_rank_symbols (n m : nat) (d : ascii) :
  m < n -> nth m (rank_symbols n) d = rank_symbol m.
Proof. intros Hm. unfold rank_symbols. now rewrite nth_map_seq. Qed.

Lemma length_rank_symbols (n : nat) : length (rank_symbols n) = n.
Proof. unfold rank_symbols. now rewrite length_map, length_seq. Qed.

Lemma In_rank_symbols (n : nat) (c : ascii) :
  In c (rank_symbols n) <-> exists m, m < n /\ c = rank_symbol m.
Proof.
  unfold rank_symbols. rewrite in_map_iff. split.
  - intros (m & <- & Hm). apply in_seq in Hm. exists m. split; [lia|reflexivity].
  - intros (m & Hm & ->). exists m. split; [reflexivity|]. apply in_seq. lia.
Qed.

Lemma NoDup_rank_symbols (n : nat) : n <= 26 -> List.NoDup (rank_symbols n).
Proof.
  intros Hn. apply NoDup_map_seq. intros i j Hi Hj. apply rank_symbol_inj; lia.
Qed.

Lemma rank_symbol_not_mode (n m : nat) :
  n <= 26 -> m < 26 -> ~ In (rank_symbol m) (mode_symbols n).
Proof.
  intros Hn Hm Hin. apply In_mode_symbols in Hin. destruct Hin as (m' & Hm' & Heq).
  symmetry in Heq. apply mode_symbol_not_rank in Heq; [exact Heq|lia|lia].
Qed.

Lemma In_tucker_terms (n : nat) (c : ascii) :
  In c (concat (tucker_terms n)) <->
  exists m, m < n /\ (c = rank_symbol m \/ c = mode_symbol m).
Proof.
  unfold tucker_terms. cbn [concat]. rewrite in_app_iff. fold (rank_symbols n).
  rewrite In_rank_symbols, in_concat. split.
  - intros [(m & Hm & ->)|(t & Ht & Hc)].
    + exists m. tauto.
    + apply in_map_iff in Ht. destruct Ht as (m & <- & Hm). apply in_seq in Hm.
      exists m. split; [lia|]. destruct Hc as [<-|[<-|[]]]; tauto.
  - intros (m & Hm & [->| ->]).
    + left. exists m. tauto.
    + right. exists [mode_symbol m; rank_symbol m]. split; [|now left].
      apply in_map_iff. exists m. split; [reflexivity|]. apply in_seq. lia.
Qed.

Lemma tucker_terms_alpha (n : nat) :
  n <= 26 -> forallb is_alpha (concat (tucker_terms n) ++ mode_symbols n) = true.
Proof.
  intros Hn. apply forallb_forall. intros c Hc.
  apply in_app_or in Hc. destruct Hc as [Hc|Hc].
  - apply In_tucker_terms in Hc. destruct Hc as (m & Hm & [->| ->]).
    + apply is_alpha_rank_symbol. lia.
    + apply is_alpha_mode_symbol. lia.
  - apply In_mode_symbols in Hc. destruct Hc as (m & Hm & ->).
    apply is_alpha_mode_symbol. lia.
Qed.

Lemma tucker_terms_cover (n : nat) :
  forallb (fun c => mem_char c (concat (tucker_terms n))) (mode_symbols n) = true.
Proof.
  apply forallb_forall. intros c Hc. apply mem_char_In.
  apply In_mode_symbols in Hc. destruct Hc as (m & Hm & ->).
  apply In_tucker_terms. exists m. tauto.
Qed.

Lemma tucker_summed_labels (n : nat) :
  n <= 26 -> summed_labels (tucker_terms n) (mode_symbols n) = rank_symbols n.
Proof.
  intros Hn. unfold summed_labels, tucker_terms. cbn [concat].
  fold (rank_symbols n). rewrite List.filter_app.
  rewrite (filter_all _ (rank_symbols n)).
  - apply dedup_fresh.
    + now apply NoDup_rank_symbols.
    + intros c _ [].
    + intros c Hc. left. apply List.filter_In in Hc. destruct Hc as [Hc Hout].
      apply in_concat in Hc. destruct Hc as (t & Ht & Hc).
      apply in_map_iff in Ht. destruct Ht as (m & <- & Hm). apply in_seq in Hm.
      destruct Hc as [<-|[<-|[]]].
      * exfalso. apply negb_true_iff in Hout.
        rewrite (proj2 (mem_char_In _ _)) in Hout; [discriminate|].
        apply In_mode_symbols. exists m. split; [lia|reflexivity].
      * apply In_rank_symbols. exists m. split; [lia|reflexivity].
  - intros c Hc. apply In_rank_symbols in Hc. destruct Hc as (m & Hm & ->).
    apply negb_true_iff. destruct (mem_char (rank_symbol m) (mode_symbols n)) eqn:Hmem;
      [|reflexivity].
    apply mem_char_In in Hmem. apply rank_symbol_not_mode in Hmem; [destruct Hmem|lia|lia].
Qed.

Lemma tucker_subscripts_parse (n n_modes : nat) :
  n_modes <= 26 ->
  exists subscripts : string * string * string,
    for_each (tucker_subscript_step n) (seq 0 n_modes) (""%string, ""%string, ""%string)
      = Ok subscripts /\
    parse_subscripts (fst (fst subscripts) ++ snd (fst subscripts) ++ " -> "
                        ++ snd subscripts)%string
    = Some (tucker_terms n_modes, mode_symbols n_modes).
Proof.
  intros Hn.
  destruct (tucker_subscript_loop n 0 n_modes (""%string, ""%string, ""%string))
    as (st & Hloop & Hcore & Hin & Hout); [lia|].
  exists st. split; [exact Hloop|].
  apply parse_subscripts_joined.
  - rewrite !list_ascii_of_string_app, Hcore, Hin, Hout.
    cbn [fst snd list_ascii_of_string app].
    rewrite !List.filter_app, filter_over_flat_map.
    cbn [List.filter]. change (no_blank " ") with false.
    change (no_blank "-") with true. change (no_blank ">") with true. cbv iota.
    rewrite !(filter_all no_blank (map _ (seq 0 n_modes))).
    + unfold tucker_terms, join_terms. rewrite flat_map_over_map.
      rewrite <- app_assoc. f_equal. f_equal.
      apply flat_map_ext_in. intros m Hm. apply in_seq in Hm.
      cbn [List.filter]. change (no_blank ",") with true.
      change (no_blank " ") with false.
      rewrite (no_blank_alpha (mode_symbol m)) by (apply is_alpha_mode_symbol; lia).
      rewrite (no_blank_alpha (rank_symbol m)) by (apply is_alpha_rank_symbol; lia).
      reflexivity.
    + intros c Hc. apply no_blank_alpha. apply in_map_iff in Hc.
      destruct Hc as (m & <- & Hm). apply in_seq in Hm. apply is_alpha_mode_symbol. lia.
    + intros c Hc. apply no_blank_alpha. apply in_map_iff in Hc.
      destruct Hc as (m & <- & Hm). apply in_seq in Hm. apply is_alpha_rank_symbol. lia.
  - discriminate.
  - pose proof (tucker_terms_alpha n_modes Hn) as Halpha.
    rewrite forallb_app in Halpha. apply andb_true_iff in Halpha. tauto.
Qed.

Lemma combine_map_l {X Y Z : Type} (f : X -> Y) (l : list X) (l' : list Z) :
  combine (map f l) l' = map (fun p => (f (fst p), snd p)) (combine l l').
Proof.
  revert l'. induction l as [|x l IH]; intros [|z l']; simpl; try reflexivity.
  now rewrite IH.
Qed.

Lemma In_combine_seq {X : Type} (l : list X) (a m : nat) (x : X) :
  nth_error l m = Some x -> In (a + m, x) (combine (seq a (length l)) l).
Proof.
  revert a m. induction l as [|y l IH]; intros a m Hnth.
  - destruct m; discriminate.
  - destruct m as [|m]; cbn [length seq combine].
    + injection Hnth as ->. left. now rewrite Nat.add_0_r.
    + right. replace (a + S m) with (S a + m) by lia. now apply IH.
Qed.

Lemma In_enumerate {X : Type} (l : list X) (m : nat) (x : X) :
  nth_error l m = Some x -> In (m, x) (enumerate l).
Proof. intros Hnth. apply (In_combine_seq l 0 m x Hnth). Qed.

Lemma too_many_modes_msg_head (k : Z) (n : nat) :
  exists tail : string, too_many_modes_msg k n = String "C" tail.
Proof. eexists. unfold too_many_modes_msg. cbn [append]. reflexivity. Qed.

Ltac not_range_error :=
  let k := fresh "k" in
  let n := fresh "n" in
  let Heq := fresh "Heq" in
  let tail := fresh "tail" in
  let Ht := fresh "Ht" in
  intros k n Heq; destruct (too_many_modes_msg_head k n) as [tail Ht];
  rewrite Ht in Heq; discriminate.

Lemma no_range_error_raise {T U : Type} (e : exn) :
  no_range_error (@Raise T e) -> no_range_error (@Raise U e).
Proof. intros Hr k n Heq. injection Heq as ->. now apply (Hr k n). Qed.

(** ** Arrays *)

Section ArrayFacts.

Context {A : Type} `{Scalar A}.

Lemma wf_build (s : list nat) (f : list nat -> A) : wf (build s f).
Proof. unfold wf, build. simpl. now rewrite length_map, length_indices. Qed.

Lemma get_build (s : list nat) (f : list nat -> A) (idx : list nat) :
  valid_index s idx -> get (build s f) idx = f idx.
Proof.
  intros Hv. unfold get, build. simpl.
  rewrite (nth_indep _ zero (f [])).
  - rewrite map_nth. now rewrite nth_indices.
  - rewrite length_map, length_indices. now apply ravel_lt.
Qed.

Lemma build_ext (s : list nat) (f g : list nat -> A) :
  (forall idx, valid_index s idx -> f idx = g idx) -> build s f = build s g.
Proof.
  intros Hfg. unfold build. f_equal.
  apply map_ext_in. intros idx Hin. apply Hfg. now apply indices_valid.
Qed.

Lemma build_get (a : ndarray A) : wf a -> build (shape a) (get a) = a.
Proof.
  destruct a as [s l]. unfold wf, build, get. simpl. intros Hwf. f_equal.
  rewrite <- (map_map (ravel s) (fun k => nth k l zero)).
  rewrite map_ravel_indices, <- Hwf. apply map_nth_seq_id.
Qed.

Lemma moveaxis_to_front (a : ndarray A) (mode : Z) :
  valid_axis mode (ndim a) ->
  let m := axis_position mode (ndim a) in
  moveaxis a mode 0 =
    Ok (build (nth m (shape a) 0 :: remove_at m (shape a))
          (fun idx => get a (insert_at m (hd 0 idx) (tl idx)))).
Proof.
  intros Hv m. pose proof (axis_position_lt _ _ Hv) as Hm. fold m in Hm.
  unfold moveaxis. rewrite (normalize_axis_index_valid _ _ Hv). cbn [bind]. fold m.
  rewrite normalize_axis_index_valid by (unfold valid_axis; lia).
  cbn [bind]. change (axis_position 0 (ndim a)) with 0.
  rewrite order_to_front by exact Hm.
  unfold transpose. rewrite is_permutation_to_front by exact Hm.
  f_equal. unfold ndim in *. rewrite shape_to_front by exact Hm.
  apply build_ext. intros idx Hidx. f_equal.
  apply valid_index_length in Hidx. simpl in Hidx.
  rewrite length_remove_at in Hidx by exact Hm.
  assert (length idx = length (shape a)) as Hlen by lia.
  rewrite <- Hlen. apply source_index_to_front. lia.
Qed.

Lemma moveaxis_from_front (b : ndarray A) (m : nat) :
  m < ndim b ->
  moveaxis b 0 (Z.of_nat m) =
    Ok (build (insert_at m (hd 0 (shape b)) (tl (shape b)))
          (fun idx => get b (nth m idx 0 :: remove_at m idx))).
Proof.
  intros Hm. unfold moveaxis.
  rewrite normalize_axis_index_valid by (unfold valid_axis; lia).
  cbn [bind]. change (axis_position 0 (ndim b)) with 0.
  rewrite normalize_axis_index_valid by (unfold valid_axis; lia).
  cbn [bind]. unfold axis_position.
  destruct (Z.ltb_spec (Z.of_nat m) 0) as [Hneg|_]; [lia|].
  rewrite Nat2Z.id.
  rewrite order_from_front by exact Hm.
  unfold transpose. rewrite is_permutation_from_front by exact Hm.
  f_equal. unfold ndim in *. rewrite shape_from_front by exact Hm.
  apply build_ext. intros idx Hidx. f_equal.
  apply valid_index_length in Hidx. rewrite length_insert_at in Hidx.
  assert (length idx = length (shape b)) as Hlen.
  { destruct (shape b); simpl in *; lia. }
  rewrite <- Hlen. apply source_index_from_front. lia.
Qed.

(** ** unfold_tensor *)

Lemma unfold_tensor_with_mode (x : array_like A) (mode : Z) :
  unfold_tensor (call_with_mode x mode) =
    (moved <- moveaxis (asarray x) mode 0 ;;
     rows <- tuple_item (shape (asarray x)) mode ;;
     reshape moved [Dim rows; Infer]).
Proof. destruct x; reflexivity. Qed.

Lemma reshape_rows_infer (b : ndarray A) (rows : nat) (rest : list nat) :
  shape b = rows :: rest -> rows <> 0 ->
  reshape b [Dim rows; Infer] = Ok (NdArray [rows; size_of rest] (data b)).
Proof.
  intros Hs Hrows. unfold reshape. rewrite Hs. cbn [List.filter is_infer length].
  unfold known_size. cbn [map dim_value size_of fold_right].
  rewrite !Nat.mul_1_r.
  destruct (Nat.eqb_spec rows 0) as [|_]; [contradiction|].
  rewrite (Nat.mul_comm rows), Nat.Div0.mod_mul, Nat.div_mul by exact Hrows.
  reflexivity.
Qed.

Lemma reshape_rows_infer_empty (b : ndarray A) (rest : list nat) :
  shape b = 0 :: rest ->
  reshape b [Dim 0; Infer] = Raise (ValueError "cannot reshape array into the requested shape").
Proof. intros Hs. unfold reshape. rewrite Hs. reflexivity. Qed.

Lemma reshape_exact (b : ndarray A) (s : list nat) :
  size_of (shape b) = size_of s -> reshape b (map Dim s) = Ok (NdArray s (data b)).
Proof.
  intros Hs. unfold reshape.
  assert (List.filter is_infer (map Dim s) = []) as ->.
  { clear Hs. induction s as [|n s IH]; simpl; [reflexivity|apply IH]. }
  assert (forall d, map (dim_value d) (map Dim s) = s) as Hmap.
  { intros d. rewrite map_map. apply map_id. }
  unfold known_size. rewrite !Hmap. cbn [length].
  rewrite Hs, Nat.eqb_refl. reflexivity.
Qed.

Lemma unfold_tensor_returns (x : array_like A) (mode : Z) :
  valid_axis mode (ndim (asarray x)) ->
  nth (axis_position mode (ndim (asarray x))) (shape (asarray x)) 0 <> 0 ->
  unfold_tensor (call_with_mode x mode)
  = Ok (unfolded (asarray x) (axis_position mode (ndim (asarray x)))).
Proof.
  intros Hv Hrows. rewrite unfold_tensor_with_mode.
  rewrite (moveaxis_to_front _ _ Hv). cbn [bind].
  unfold ndim in *. rewrite (tuple_item_valid _ _ Hv). cbn [bind].
  now rewrite (reshape_rows_infer _ _ (remove_at (axis_position mode (length (shape (asarray x)))) (shape (asarray x)))).
Qed.

Lemma unfold_tensor_empty_axis (x : array_like A) (mode : Z) :
  valid_axis mode (ndim (asarray x)) ->
  nth (axis_position mode (ndim (asarray x))) (shape (asarray x)) 0 = 0 ->
  unfold_tensor (call_with_mode x mode)
  = Raise (ValueError "cannot reshape array into the requested shape").
Proof.
  intros Hv Hrows. rewrite unfold_tensor_with_mode.
  rewrite (moveaxis_to_front _ _ Hv). cbn [bind].
  unfold ndim in *. rewrite (tuple_item_valid _ _ Hv). cbn [bind].
  rewrite Hrows. 
  now apply (reshape_rows_infer_empty _ (remove_at (axis_position mode (length (shape (asarray x)))) (shape (asarray x)))).
Qed.

Lemma get_flattened_tail (rows : nat) (rest : list nat) (l : list A) (i : nat)
    (idx : list nat) :
  get (NdArray [rows; size_of rest] l) [i; ravel rest idx]
  = get (NdArray (rows :: rest) l) (i :: idx).
Proof. unfold get. simpl. f_equal. lia. Qed.

Lemma get_unfolded (T : ndarray A) (m : nat) (idx : list nat) :
  m < ndim T -> valid_index (shape T) idx ->
  get (unfolded T m) [nth m idx 0; ravel (remove_at m (shape T)) (remove_at m idx)]
  = get T idx.
Proof.
  intros Hm Hidx.
  transitivity (get (build (nth m (shape T) 0 :: remove_at m (shape T))
                       (fun idx => get T (insert_at m (hd 0 idx) (tl idx))))
                  (nth m idx 0 :: remove_at m idx)).
  - apply get_flattened_tail.
  - rewrite get_build.
    + cbn [hd tl]. rewrite insert_remove_at; [reflexivity|].
      apply valid_index_length in Hidx. unfold ndim in Hm. lia.
    + constructor.
      * now apply valid_index_nth.
      * now apply valid_index_remove_at.
Qed.

Lemma fold_unfolded (T : ndarray A) (m : nat) :
  m < ndim T -> wf T -> fold_tensor (unfolded T m) m (shape T) = Ok T.
Proof.
  intros Hm Hwf. unfold fold_tensor.
  rewrite reshape_exact by (unfold unfolded; simpl; lia).
  cbn [bind].
  rewrite moveaxis_from_front.
  - cbn [shape hd tl]. unfold ndim in Hm. rewrite insert_remove_at by exact Hm.
    f_equal. etransitivity; [|exact (build_get T Hwf)].
    apply build_ext. intros idx Hidx.
    change (NdArray ?s (data (unfolded T m))) with
      (build (nth m (shape T) 0 :: remove_at m (shape T))
         (fun idx => get T (insert_at m (hd 0 idx) (tl idx)))).
    rewrite get_build.
    + cbn [hd tl]. rewrite insert_remove_at; [reflexivity|].
      apply valid_index_length in Hidx. lia.
    + constructor.
      * now apply valid_index_nth.
      * now apply valid_index_remove_at.
  - unfold ndim in *. cbn [shape length]. rewrite length_remove_at by exact Hm. lia.
Qed.

(** ** einsum *)

Lemma label_extents_shaped (ext : ascii -> nat) (ins : list (list ascii))
    (ops : list (ndarray A)) :
  Forall2 (shaped_by ext) ins ops ->
  label_extents ins ops = map (fun c => (c, ext c)) (concat ins).
Proof.
  intros Hs. unfold label_extents.
  induction Hs as [|t op ins ops Ht Hs IH]; simpl.
  - reflexivity.
  - rewrite IH, map_app. f_equal. unfold shaped_by in Ht. rewrite Ht.
    apply combine_map_r.
Qed.

Lemma term_fits_shaped (ext : ascii -> nat) (ins : list (list ascii))
    (ops : list (ndarray A)) :
  Forall2 (shaped_by ext) ins ops -> forallb term_fits (combine ins ops) = true.
Proof.
  intros Hs. induction Hs as [|t op ins ops Ht Hs IH]; simpl.
  - reflexivity.
  - rewrite IH, andb_true_r. unfold term_fits, ndim. simpl.
    unfold shaped_by in Ht. rewrite Ht, length_map. apply Nat.eqb_refl.
Qed.

Lemma contract_shaped (ext : ascii -> nat) (ins : list (list ascii)) (out : list ascii)
    (ops : list (ndarray A)) :
  Forall2 (shaped_by ext) ins ops ->
  forallb is_alpha (concat ins ++ out) = true ->
  nodup_chars out = true ->
  forallb (fun c => mem_char c (concat ins)) out = true ->
  contract ins out ops =
    Ok (build (map ext out)
          (fun oidx =>
             sum_of
               (map (fun sidx =>
                       prod_of
                         (map (fun p =>
                                 get (snd p)
                                   (map (lookup_label
                                           (combine (out ++ summed_labels ins out)
                                              (oidx ++ sidx)))
                                      (fst p)))
                            (combine ins ops)))
                  (indices (map ext (summed_labels ins out)))))).
Proof.
  intros Hs Halpha Hnodup Hout. unfold contract.
  assert (length ins = length ops) as Hlen by (eapply List.Forall2_length; eassumption).
  rewrite Halpha, Hlen, Nat.eqb_refl, (term_fits_shaped _ _ _ Hs).
  rewrite Hnodup, Hout. cbn [negb].
  rewrite (label_extents_shaped _ _ _ Hs).
  assert (extents_agree (map (fun c => (c, ext c)) (concat ins)) = true) as ->.
  { unfold extents_agree. apply forallb_forall. intros p Hin.
    apply in_map_iff in Hin. destruct Hin as (c & <- & Hin). simpl.
    rewrite lookup_label_graph by exact Hin. apply Nat.eqb_refl. }
  cbn [negb]. f_equal. unfold einsum_eval.
  rewrite (label_extents_shaped _ _ _ Hs).
  rewrite (map_ext_in _ ext out).
  - rewrite (map_ext_in _ ext (summed_labels ins out)); [reflexivity|].
    intros c Hc. apply lookup_label_graph. now apply summed_labels_In in Hc.
  - intros c Hc. apply lookup_label_graph.
    rewrite forallb_forall in Hout. apply mem_char_In. now apply Hout.
Qed.

(** ** cp_to_tensor *)

Lemma cp_operands_shaped (w : ndarray A) (fs : list (ndarray A)) (rank : nat) (ns : list nat) :
  length fs <= 26 ->
  shape w = [rank] ->
  map shape fs = map (fun n => [n; rank]) ns ->
  Forall2 (shaped_by (cp_extent rank ns)) (cp_terms (length fs)) (w :: fs).
Proof.
  intros Hn Hw Hfs.
  assert (length ns = length fs) as Hns.
  { apply (f_equal (@length _)) in Hfs. rewrite !length_map in Hfs. lia. }
  unfold cp_terms. constructor.
  - unfold shaped_by. now rewrite Hw.
  - apply (Forall2_pointwise _ _ _ [] (NdArray [] [])).
    + now rewrite length_map, length_seq.
    + intros i Hi. rewrite length_map, length_seq in Hi.
      rewrite nth_map_seq by exact Hi. unfold shaped_by. cbn [map Nat.add].
      rewrite cp_extent_mode, cp_extent_R by lia.
      rewrite <- (map_nth (@shape A) fs (NdArray [] []) i), Hfs. cbn [shape].
      now rewrite (nth_map_in _ _ _ _ 0) by lia.
Qed.

Lemma cp_contract (w : ndarray A) (fs : list (ndarray A)) (rank : nat) (ns : list nat) :
  length fs <= 26 ->
  shape w = [rank] ->
  map shape fs = map (fun n => [n; rank]) ns ->
  contract (cp_terms (length fs)) (mode_symbols (length fs)) (w :: fs)
  = Ok (build ns
          (fun idx =>
             sum_of
               (map (fun r =>
                       fold_left mul
                         (map (fun p => get (fst p) [snd p; r]) (combine fs idx))
                         (get w [r]))
                  (seq 0 rank)))).
Proof.
  intros Hn Hw Hfs.
  assert (length ns = length fs) as Hns.
  { apply (f_equal (@length _)) in Hfs. rewrite !length_map in Hfs. lia. }
  rewrite (contract_shaped (cp_extent rank ns)).
  - f_equal.
    assert (map (cp_extent rank ns) (mode_symbols (length fs)) = ns) as ->.
    { apply (nth_ext _ _ 0 0).
      - now rewrite length_map, length_mode_symbols.
      - intros i Hi. rewrite length_map, length_mode_symbols in Hi.
        unfold mode_symbols. rewrite map_map, nth_map_seq by exact Hi.
        cbn [Nat.add]. apply cp_extent_mode. lia. }
    rewrite cp_summed_labels by exact Hn. cbn [map]. rewrite cp_extent_R.
    rewrite indices_vector.
    apply build_ext. intros idx Hidx. rewrite List.map_map. f_equal. apply map_ext. intros r.
    apply valid_index_length in Hidx.
    assert (lookup_label (combine (mode_symbols (length fs) ++ ["R"%char]) (idx ++ [r]))
              "R"%char = r) as HR.
    { apply lookup_label_last.
      - rewrite length_mode_symbols. lia.
      - now apply R_not_mode_symbol. }
    unfold cp_terms. cbn [combine map fst snd prod_of]. rewrite HR. f_equal.
    apply (map_combine_pointwise _ _ _ _ _ _ [] (NdArray [] []) (NdArray [] []) 0).
    + now rewrite length_map, length_seq.
    + lia.
    + now rewrite length_map, length_seq.
    + intros i Hi. rewrite length_map, length_seq in Hi.
      rewrite nth_map_seq by exact Hi. cbn [fst snd map Nat.add]. f_equal. f_equal.
      * rewrite <- (nth_mode_symbols (length fs) i "R"%char) by exact Hi.
        apply lookup_label_leading.
        -- now apply NoDup_mode_symbols.
        -- rewrite length_mode_symbols. lia.
        -- now rewrite length_mode_symbols.
      * now rewrite HR.
  - now apply cp_operands_shaped.
  - now apply cp_terms_alpha.
  - apply nodup_chars_NoDup. now apply NoDup_mode_symbols.
  - apply cp_terms_cover.
Qed.

(** ** tucker_to_tensor *)

Lemma tucker_operands_shaped (core : ndarray A) (fs : list (ndarray A)) (ns : list nat) :
  length fs <= 26 ->
  length (shape core) = length fs ->
  length ns = length fs ->
  map shape fs = map (fun p => [fst p; snd p]) (combine ns (shape core)) ->
  Forall2 (shaped_by (tucker_extent (shape core) ns)) (tucker_terms (length fs)) (core :: fs).
Proof.
  intros Hn Hrs Hns Hfs. unfold tucker_terms. constructor.
  - unfold shaped_by. apply (nth_ext _ _ 0 0).
    + now rewrite !length_map, length_seq.
    + intros i Hi. rewrite List.map_map, nth_map_seq by lia.
      cbn [Nat.add]. rewrite tucker_extent_rank by lia. reflexivity.
  - apply (Forall2_pointwise _ _ _ [] (NdArray [] [])).
    + now rewrite length_map, length_seq.
    + intros i Hi. rewrite length_map, length_seq in Hi.
      rewrite nth_map_seq by exact Hi. unfold shaped_by. cbn [map Nat.add].
      rewrite tucker_extent_mode, tucker_extent_rank by lia.
      rewrite <- (map_nth (@shape A) fs (NdArray [] []) i), Hfs. cbn [shape].
      rewrite (nth_map_in _ _ _ _ (0, 0)) by (rewrite length_combine; lia).
      rewrite combine_nth by lia. reflexivity.
Qed.

Lemma tucker_contract (core : ndarray A) (fs : list (ndarray A)) (ns : list nat) :
  length fs <= 26 ->
  length (shape core) = length fs ->
  length ns = length fs ->
  map shape fs = map (fun p => [fst p; snd p]) (combine ns (shape core)) ->
  contract (tucker_terms (length fs)) (mode_symbols (length fs)) (core :: fs)
  = Ok (build ns
          (fun idx =>
             sum_of
               (map (fun ridx =>
                       fold_left mul
                         (map (fun p => get (fst p) [fst (snd p); snd (snd p)])
                            (combine fs (combine idx ridx)))
                         (get core ridx))
                  (indices (shape core))))).
Proof.
  intros Hn Hrs Hns Hfs.
  rewrite (contract_shaped (tucker_extent (shape core) ns)).
  - f_equal.
    assert (map (tucker_extent (shape core) ns) (mode_symbols (length fs)) = ns) as ->.
    { apply (nth_ext _ _ 0 0).
      - now rewrite length_map, length_mode_symbols.
      - intros i Hi. rewrite length_map, length_mode_symbols in Hi.
        unfold mode_symbols. rewrite List.map_map, nth_map_seq by exact Hi.
        cbn [Nat.add]. apply tucker_extent_mode. lia. }
    rewrite tucker_summed_labels by exact Hn.
    assert (map (tucker_extent (shape core) ns) (rank_symbols (length fs)) = shape core) as ->.
    { apply (nth_ext _ _ 0 0).
      - now rewrite length_map, length_rank_symbols.
      - intros i Hi. rewrite length_map, length_rank_symbols in Hi.
        unfold rank_symbols. rewrite List.map_map, nth_map_seq by exact Hi.
        cbn [Nat.add]. apply tucker_extent_rank. lia. }
    apply build_ext. intros idx Hidx. f_equal. apply map_ext_in. intros ridx Hridx.
    apply valid_index_length in Hidx.
    apply indices_valid, valid_index_length in Hridx.
    assert (forall m, m < length fs ->
              lookup_label (combine (mode_symbols (length fs) ++ rank_symbols (length fs))
                              (idx ++ ridx)) (rank_symbol m) = nth m ridx 0) as Hrank.
    { intros m Hm. rewrite <- (nth_rank_symbols (length fs) m "R"%char) by exact Hm.
      apply lookup_label_trailing.
      - now apply NoDup_rank_symbols.
      - rewrite length_mode_symbols. lia.
      - rewrite length_rank_symbols. lia.
      - now rewrite length_rank_symbols.
      - rewrite nth_rank_symbols by exact Hm. apply rank_symbol_not_mode; lia. }
    assert (forall m, m < length fs ->
              lookup_label (combine (mode_symbols (length fs) ++ rank_symbols (length fs))
                              (idx ++ ridx)) (mode_symbol m) = nth m idx 0) as Hmode.
    { intros m Hm. rewrite <- (nth_mode_symbols (length fs) m "R"%char) by exact Hm.
      apply lookup_label_leading.
      - now apply NoDup_mode_symbols.
      - rewrite length_mode_symbols. lia.
      - now rewrite length_mode_symbols. }
    unfold tucker_terms. cbn [combine map fst snd prod_of]. f_equal.
    + apply (map_combine_pointwise _ _ _ _ _ _ [] (NdArray [] []) (NdArray [] []) (0, 0)).
      * now rewrite length_map, length_seq.
      * rewrite length_combine. lia.
      * now rewrite length_map, length_seq.
      * intros i Hi. rewrite length_map, length_seq in Hi.
        rewrite nth_map_seq by exact Hi. rewrite combine_nth by lia.
        cbn [fst snd map Nat.add]. now rewrite Hrank, Hmode.
    + f_equal. apply (nth_ext _ _ 0 0).
      * rewrite !length_map, length_seq. lia.
      * intros i Hi. rewrite !length_map, length_seq in Hi.
        rewrite List.map_map, nth_map_seq by exact Hi. cbn [Nat.add]. now apply Hrank.
  - now apply tucker_operands_shaped.
  - now apply tucker_terms_alpha.
  - apply nodup_chars_NoDup. now apply NoDup_mode_symbols.
  - apply tucker_terms_cover.
Qed.

(** ** Reconstruction *)

Lemma reshape_flat (w : ndarray A) : reshape w [Infer] = Ok (flattened w).
Proof.
  unfold reshape, flattened.
  cbn [List.filter is_infer length known_size map dim_value size_of fold_right].
  cbn [Nat.mul Nat.add Nat.eqb orb].
  rewrite Nat.mod_1_r, Nat.div_1_r. reflexivity.
Qed.

Lemma flattened_vector (w : ndarray A) (rank : nat) : shape w = [rank] -> flattened w = w.
Proof.
  destruct w as [s l]. unfold flattened. simpl. intros ->. simpl.
  now rewrite Nat.mul_1_r.
Qed.

Lemma flattened_ones (rank : nat) : flattened (ones rank) = ones rank.
Proof. now apply (flattened_vector _ rank). Qed.

Lemma cp_weights_given (w : ndarray A) (fms : list (factor_matrix A)) :
  cp_weights (Some w, fms) = Ok (flattened w).
Proof. apply reshape_flat. Qed.

Lemma cp_weights_omitted (fms : list (factor_matrix A)) (rank : nat) (ns : list nat) :
  fms <> [] ->
  map (fun fm => shape (factor_values fm)) fms = map (fun n => [n; rank]) ns ->
  cp_weights (None, fms) = Ok (ones rank).
Proof.
  intros Hne Hfs. destruct fms as [|fm fms]; [congruence|].
  destruct ns as [|n ns]; [discriminate|]. cbn [map] in Hfs.
  injection Hfs as Hfm _. unfold cp_weights. cbn [fst snd]. rewrite Hfm. reflexivity.
Qed.

(** The reconstruction proper: the loop writes the subscripts and einsum
    evaluates them. *)
Lemma cp_einsum (w : ndarray A) (fms : list (factor_matrix A)) (rank : nat)
    (ns : list nat) :
  length fms <= 26 ->
  shape w = [rank] ->
  map (fun fm => shape (factor_values fm)) fms = map (fun n => [n; rank]) ns ->
  exists subscripts : string * string,
    for_each (cp_subscript_step (length fms)) (seq 0 (length fms)) ("R"%string, ""%string)
      = Ok subscripts /\
    einsum (fst subscripts ++ " -> " ++ snd subscripts)%string
      (w :: map factor_values fms)
    = Ok (build ns
            (fun idx =>
               sum_of
                 (map (fun r =>
                         fold_left mul
                           (map (fun p => get (factor_values (fst p)) [snd p; r])
                              (combine fms idx))
                           (get w [r]))
                    (seq 0 rank)))).
Proof.
  intros Hn Hw Hfs.
  destruct (cp_subscripts_parse (length fms) (length fms) Hn) as (subs & Hloop & Hparse).
  exists subs. split; [exact Hloop|].
  unfold einsum. rewrite Hparse.
  rewrite <- (length_map factor_values fms).
  rewrite (cp_contract w (map factor_values fms) rank ns).
  - f_equal. apply build_ext. intros idx _. f_equal. apply map_ext. intros r.
    f_equal. rewrite combine_map_l, List.map_map. reflexivity.
  - now rewrite length_map.
  - exact Hw.
  - now rewrite List.map_map.
Qed.

Lemma is_labelled_cp_frames (weights : option (ndarray A)) (dfs : list (DataFrame A)) :
  is_labelled_cp (weights, map LabelledMatrix dfs) = true.
Proof.
  unfold is_labelled_cp. cbn [snd]. apply forallb_forall.
  intros fm Hfm. apply in_map_iff in Hfm. now destruct Hfm as (df & <- & _).
Qed.

Lemma cp_label_loop (dfs : list (DataFrame A)) (a : nat)
    (st : gmap string (list label) * list string) :
  for_each cp_label_step (combine (seq a (length dfs)) (map LabelledMatrix dfs)) st
  = Ok (fold_left record_label (combine (seq a (length dfs)) dfs) st).
Proof.
  revert a st. induction dfs as [|df dfs IH]; intros a st; cbn [length seq map combine for_each fold_left].
  - reflexivity.
  - unfold cp_label_step at 1. cbn [snd fst bind]. apply IH.
Qed.

Lemma record_label_dims (entries : list (nat * DataFrame A))
    (st : gmap string (list label) * list string) :
  snd (fold_left record_label entries st)
  = snd st ++ map (fun e => axis_name (fst e) (snd e)) entries.
Proof.
  revert st. induction entries as [|e entries IH]; intros st; cbn [fold_left map].
  - now rewrite app_nil_r.
  - rewrite IH. unfold record_label. cbn [snd]. now rewrite <- app_assoc.
Qed.

Lemma record_label_other (entries : list (nat * DataFrame A))
    (st : gmap string (list label) * list string) (name : string) :
  ~ In name (map (fun e => axis_name (fst e) (snd e)) entries) ->
  fst (fold_left record_label entries st) !! name = fst st !! name.
Proof.
  revert st. induction entries as [|e entries IH]; intros st Hnin; cbn [fold_left].
  - reflexivity.
  - rewrite IH.
    + unfold record_label. cbn [fst]. apply lookup_insert_ne.
      intros Heq. apply Hnin. left. exact Heq.
    + intros Hin. apply Hnin. right. exact Hin.
Qed.

Lemma record_label_coords (entries : list (nat * DataFrame A))
    (st : gmap string (list label) * list string) (e : nat * DataFrame A) :
  List.NoDup (map (fun e => axis_name (fst e) (snd e)) entries) ->
  In e entries ->
  fst (fold_left record_label entries st) !! axis_name (fst e) (snd e)
  = Some (df_index_values (snd e)).
Proof.
  revert st. induction entries as [|e' entries IH]; intros st Hnd Hin; cbn [fold_left].
  - destruct Hin.
  - cbn [map] in Hnd. inversion Hnd as [|? ? Hnin Hnd']; subst.
    destruct Hin as [->|Hin].
    + rewrite record_label_other by exact Hnin.
      unfold record_label. cbn [fst]. apply lookup_insert_eq.
    + now apply IH.
Qed.

Lemma cp_weights_fit (weights : option (ndarray A)) (fms : list (factor_matrix A))
    (rank : nat) (ns : list nat) :
  weights_fit weights fms rank ->
  map (fun fm => shape (factor_values fm)) fms = map (fun n => [n; rank]) ns ->
  cp_weights (weights, fms) = Ok (weights_used weights rank) /\
  shape (weights_used weights rank) = [rank].
Proof.
  intros Hfit Hfs. destruct weights as [w|]; cbn [weights_fit weights_used] in *.
  - split; [apply cp_weights_given|]. unfold flattened. cbn [shape]. now rewrite Hfit.
  - split; [now apply (cp_weights_omitted fms rank ns)|reflexivity].
Qed.

(** What [cp_to_tensor] returns on a decomposition of consistent shapes. *)
Lemma cp_to_tensor_returns (weights : option (ndarray A)) (fms : list (factor_matrix A))
    (rank : nat) (ns : list nat) :
  length fms <= 26 ->
  weights_fit weights fms rank ->
  map (fun fm => shape (factor_values fm)) fms = map (fun n => [n; rank]) ns ->
  cp_to_tensor (weights, fms)
  = (if negb (is_labelled_cp (weights, fms)) then
       Ok (PlainTensor
             (build ns
                (fun idx =>
                   sum_of
                     (map (fun r =>
                             fold_left mul
                               (map (fun p => get (factor_values (fst p)) [snd p; r])
                                  (combine fms idx))
                               (get (weights_used weights rank) [r]))
                        (seq 0 rank)))))
     else
       labels <- for_each cp_label_step (enumerate fms) (∅, []) ;;
       Ok (LabelledTensor
             {| da_values :=
                 build ns
                   (fun idx =>
                      sum_of
                        (map (fun r =>
                                fold_left mul
                                  (map (fun p => get (factor_values (fst p)) [snd p; r])
                                     (combine fms idx))
                                  (get (weights_used weights rank) [r]))
                           (seq 0 rank)));
               da_dims := snd labels;
               da_coords := fst labels |})).
Proof.
  intros Hn Hfit Hfs.
  destruct (cp_weights_fit weights fms rank ns Hfit Hfs) as [Hw Hshape].
  destruct (cp_einsum (weights_used weights rank) fms rank ns Hn Hshape Hfs)
    as (subs & Hloop & Heinsum).
  unfold cp_to_tensor. rewrite Hw. cbn [bind snd].
  rewrite Hloop. cbn [bind]. rewrite Heinsum. cbn [bind]. reflexivity.
Qed.

Lemma tucker_to_tensor_returns (core : ndarray A) (fms : list (factor_matrix A))
    (ns : list nat) :
  length fms <= 26 ->
  length (shape core) = length fms ->
  length ns = length fms ->
  map (fun fm => shape (factor_values fm)) fms
    = map (fun p => [fst p; snd p]) (combine ns (shape core)) ->
  tucker_to_tensor (core, fms)
  = Ok (PlainTensor
          (build ns
             (fun idx =>
                sum_of
                  (map (fun ridx =>
                          fold_left mul
                            (map (fun p =>
                                    get (factor_values (fst p)) [fst (snd p); snd (snd p)])
                               (combine fms (combine idx ridx)))
                            (get core ridx))
                     (indices (shape core)))))).
Proof.
  intros Hn Hrs Hns Hfs.
  destruct (tucker_subscripts_parse (length fms) (length fms) Hn) as (subs & Hloop & Hparse).
  unfold tucker_to_tensor. cbn [fst snd]. rewrite Hloop. cbn [bind].
  unfold einsum. rewrite Hparse.
  rewrite <- (length_map factor_values fms).
  rewrite (tucker_contract core (map factor_values fms) ns).
  - cbn [bind]. f_equal. f_equal. apply build_ext. intros idx _. f_equal.
    apply map_ext. intros ridx. f_equal.
    rewrite combine_map_l, List.map_map. reflexivity.
  - now rewrite length_map.
  - now rewrite length_map.
  - now rewrite length_map.
  - now rewrite List.map_map.
Qed.

Lemma labelled_frames (fms : list (factor_matrix A)) :
  forallb has_labels fms = true -> exists dfs, fms = map LabelledMatrix dfs.
Proof.
  induction fms as [|fm fms IH]; cbn [forallb]; intros Hall.
  - exists []. reflexivity.
  - apply andb_true_iff in Hall. destruct Hall as [Hfm Hall].
    destruct (IH Hall) as [dfs ->]. destruct fm as [a|df]; [discriminate|].
    exists (df :: dfs). reflexivity.
Qed.

Lemma cp_to_tensor_plain (weights : option (ndarray A)) (fms : list (factor_matrix A))
    (rank : nat) (ns : list nat) :
  length fms <= 26 ->
  weights_fit weights fms rank ->
  map (fun fm => shape (factor_values fm)) fms = map (fun n => [n; rank]) ns ->
  forallb has_labels fms = false ->
  cp_to_tensor (weights, fms)
  = Ok (PlainTensor
          (build ns
             (fun idx =>
                sum_of
                  (map (fun r =>
                          fold_left mul
                            (map (fun p => get (factor_values (fst p)) [snd p; r])
                               (combine fms idx))
                            (get (weights_used weights rank) [r]))
                     (seq 0 rank))))).
Proof.
  intros Hn Hfit Hfs Hplain.
  rewrite (cp_to_tensor_returns weights fms rank ns Hn Hfit Hfs).
  unfold is_labelled_cp. cbn [snd]. now rewrite Hplain.
Qed.

Lemma cp_to_tensor_labelled (weights : option (ndarray A)) (dfs : list (DataFrame A))
    (rank : nat) (ns : list nat) :
  length dfs <= 26 ->
  weights_fit weights (map LabelledMatrix dfs) rank ->
  map (fun df => shape (df_values df)) dfs = map (fun n => [n; rank]) ns ->
  cp_to_tensor (weights, map LabelledMatrix dfs)
  = Ok (LabelledTensor
          {| da_values :=
              build ns
                (fun idx =>
                   sum_of
                     (map (fun r =>
                             fold_left mul
                               (map (fun p => get (df_values (fst p)) [snd p; r])
                                  (combine dfs idx))
                               (get (weights_used weights rank) [r]))
                        (seq 0 rank)));
            da_dims := map (fun e => axis_name (fst e) (snd e)) (enumerate dfs);
            da_coords := fst (fold_left record_label (enumerate dfs) (∅, [])) |}).
Proof.
  intros Hn Hfit Hfs.
  rewrite (cp_to_tensor_returns weights (map LabelledMatrix dfs) rank ns).
  - rewrite is_labelled_cp_frames. cbn [negb].
    unfold enumerate at 1. rewrite length_map, cp_label_loop. cbn [bind].
    fold (enumerate dfs). rewrite record_label_dims. cbn [snd app].
    f_equal. f_equal. f_equal.
    apply build_ext. intros idx _. f_equal. apply map_ext. intros r. f_equal.
    rewrite combine_map_l, List.map_map. reflexivity.
  - now rewrite length_map.
  - exact Hfit.
  - now rewrite List.map_map.
Qed.

Lemma cp_to_tensor_ok (weights : option (ndarray A)) (fms : list (factor_matrix A))
    (rank : nat) (ns : list nat) :
  length fms <= 26 ->
  weights_fit weights fms rank ->
  map (fun fm => shape (factor_values fm)) fms = map (fun n => [n; rank]) ns ->
  exists t : dense A,
    cp_to_tensor (weights, fms) = Ok t /\
    dense_values t
    = build ns
        (fun idx =>
           sum_of
             (map (fun r =>
                     fold_left mul
                       (map (fun p => get (factor_values (fst p)) [snd p; r])
                          (combine fms idx))
                       (get (weights_used weights rank) [r]))
                (seq 0 rank))).
Proof.
  intros Hn Hfit Hfs. destruct (forallb has_labels fms) eqn:Hall.
  - destruct (labelled_frames fms Hall) as [dfs ->].
    rewrite (cp_to_tensor_labelled weights dfs rank ns).
    + eexists. split; [reflexivity|]. cbn [dense_values da_values].
      apply build_ext. intros idx _. f_equal. apply map_ext. intros r. f_equal.
      rewrite combine_map_l, List.map_map. reflexivity.
    + now rewrite length_map in Hn.
    + exact Hfit.
    + now rewrite List.map_map in Hfs.
  - rewrite (cp_to_tensor_plain weights fms rank ns Hn Hfit Hfs Hall).
    eexists. split; reflexivity.
Qed.

(** ** The limit on the number of modes *)

Lemma einsum_no_range_error (subscripts : string) (operands : list (ndarray A)) :
  no_range_error (einsum subscripts operands).
Proof.
  unfold einsum, contract.
  destruct (parse_subscripts subscripts) as [[ins out]|]; [|not_range_error].
  repeat match goal with
         | |- context [if ?b then _ else _] => destruct b
         end; not_range_error.
Qed.

Lemma cp_weights_no_range_error (cp_tensor : option (ndarray A) * list (factor_matrix A)) :
  no_range_error (cp_weights cp_tensor).
Proof.
  destruct cp_tensor as [[w|] fms].
  - rewrite cp_weights_given. not_range_error.
  - unfold cp_weights. cbn [fst snd]. destruct fms as [|fm fms]; [not_range_error|].
    unfold tuple_item.
    match goal with
    | |- context [if ?b then _ else _] => destruct b
    end; cbn [bind]; not_range_error.
Qed.

Lemma cp_label_loop_no_range_error (entries : list (nat * factor_matrix A))
    (st : gmap string (list label) * list string) :
  no_range_error (for_each cp_label_step entries st).
Proof.
  revert st. induction entries as [|[m fm] entries IH]; intros st; cbn [for_each].
  - not_range_error.
  - unfold cp_label_step at 1. cbn [snd fst]. destruct fm as [a|df]; cbn [bind].
    + not_range_error.
    + apply IH.
Qed.

Lemma cp_to_tensor_no_range_error (cp_tensor : option (ndarray A) * list (factor_matrix A)) :
  length (snd cp_tensor) <= 26 -> no_range_error (cp_to_tensor cp_tensor).
Proof.
  intros Hn. unfold cp_to_tensor.
  pose proof (cp_weights_no_range_error cp_tensor) as Hw.
  destruct (cp_weights cp_tensor) as [w|e]; cbn [bind]; [|exact (no_range_error_raise e Hw)].
  destruct (cp_subscript_loop (length (snd cp_tensor)) 0 (length (snd cp_tensor))
              ("R"%string, ""%string)) as (subs & -> & _); [lia|].
  cbn [bind].
  pose proof (einsum_no_range_error (fst subs ++ " -> " ++ snd subs)%string
                (w :: map factor_values (snd cp_tensor))) as He.
  destruct (einsum _ _) as [tensor|e]; cbn [bind]; [|exact (no_range_error_raise e He)].
  destruct (negb (is_labelled_cp cp_tensor)); [not_range_error|].
  pose proof (cp_label_loop_no_range_error (enumerate (snd cp_tensor)) (∅, [])) as Hl.
  destruct (for_each cp_label_step _ _) as [labels|e]; cbn [bind]; [not_range_error|exact (no_range_error_raise e Hl)].
Qed.

Lemma tucker_to_tensor_no_range_error (tucker_tensor : ndarray A * list (factor_matrix A)) :
  length (snd tucker_tensor) <= 26 -> no_range_error (tucker_to_tensor tucker_tensor).
Proof.
  intros Hn. unfold tucker_to_tensor.
  destruct (tucker_subscript_loop (length (snd tucker_tensor)) 0 (length (snd tucker_tensor))
              (""%string, ""%string, ""%string)) as (subs & -> & _); [lia|].
  cbn [bind].
  match goal with
  | |- context [einsum ?s ?ops] =>
      pose proof (einsum_no_range_error s ops) as He; destruct (einsum s ops) as [tensor|e]
  end; cbn [bind]; [not_range_error|exact (no_range_error_raise e He)].
Qed.

Lemma cp_to_tensor_too_many_modes (weights : option (ndarray A))
    (fms : list (factor_matrix A)) :
  26 < length fms ->
  Forall (fun fm => ndim (factor_values fm) = 2) fms ->
  cp_to_tensor (weights, fms)
  = Raise (ValueError (too_many_modes_msg (-26) (length fms))).
Proof.
  intros Hn Hmat. unfold cp_to_tensor.
  assert (exists w, cp_weights (weights, fms) = Ok w) as [w ->].
  { destruct weights as [w|].
    - eexists. apply cp_weights_given.
    - destruct fms as [|fm fms]; [simpl in Hn; lia|].
      inversion Hmat as [|? ? Hfm _]; subst. unfold cp_weights. cbn [fst snd].
      unfold ndim in Hfm. destruct (shape (factor_values fm)) as [|n [|r [|? ?]]];
        try discriminate.
      eexists. reflexivity. }
  cbn [bind snd]. rewrite cp_subscript_overflow by lia. reflexivity.
Qed.

Lemma tucker_to_tensor_too_many_modes (core : ndarray A) (fms : list (factor_matrix A)) :
  26 < length fms ->
  tucker_to_tensor (core, fms)
  = Raise (ValueError (too_many_modes_msg (-25) (length fms))).
Proof.
  intros Hn. unfold tucker_to_tensor. cbn [snd].
  rewrite tucker_subscript_overflow by lia. reflexivity.
Qed.

(** ** Configuration errors *)

Lemma moveaxis_no_type_error (a : ndarray A) (src dst : Z) :
  is_configuration_error (moveaxis a src dst) = false.
Proof.
  unfold moveaxis, normalize_axis_index, transpose.
  repeat match goal with
         | |- context [if ?b then _ else _] => destruct b; cbn [bind]
         end; reflexivity.
Qed.

Lemma reshape_no_type_error (a : ndarray A) (new : list dim_arg) :
  is_configuration_error (reshape a new) = false.
Proof.
  unfold reshape.
  destruct (length (List.filter is_infer new)) as [|[|k]];
    repeat match goal with
           | |- context [if ?b then _ else _] => destruct b
           end; reflexivity.
Qed.

Lemma unfold_tensor_body_no_type_error (x : array_like A) (mode : Z) (axis : option pyval) :
  is_configuration_error
    (unfold_tensor_body {| arg_tensor := x; arg_mode := Some (PyInt mode); arg_axis := axis |})
  = false.
Proof.
  unfold unfold_tensor_body. cbn [arg_mode arg_tensor].
  pose proof (moveaxis_no_type_error (asarray x) mode 0) as Hmove.
  destruct (moveaxis (asarray x) mode 0) as [moved|e]; cbn [bind].
  - unfold tuple_item.
    match goal with
    | |- context [if ?b then _ else _] => destruct b; cbn [bind]
    end.
    + apply reshape_no_type_error.
    + reflexivity.
  - exact Hmove.
Qed.

Lemma unfold_tensor_dispatch (x : array_like A) (m a : option pyval) :
  exists x' : array_like A,
    asarray x' = asarray x /\
    unfold_tensor {| arg_tensor := x; arg_mode := m; arg_axis := a |}
    = new_func PyNone unfold_tensor_body
        {| arg_tensor := x'; arg_mode := m; arg_axis := a |}.
Proof.
  destruct x as [v|t|d|df].
  - exists (PyScalar v). split; reflexivity.
  - exists (Plain t). split; reflexivity.
  - exists (Plain (da_values d)). split; reflexivity.
  - exists (Plain (df_values df)). split; reflexivity.
Qed.

(** * The specified properties *)

(** C1: for a CP decomposition with a weight vector [w] of length [rank] and
    factor matrices of shapes [(n_m, rank)], at most 26 of them,
    [cp_to_tensor] returns a dense tensor of shape [(n_0, ..., n_{M-1})] whose
    entry at [(i_0, ..., i_{M-1})] is the sum over [r < rank] of [w[r]]
    multiplied by the product over the modes of [A_m[i_m, r]]. *)
Theorem cp_to_tensor_entries (w : ndarray A) (fms : list (factor_matrix A))
    (rank : nat) (ns : list nat) :
  length fms <= 26 ->
  shape w = [rank] ->
  map (fun fm => shape (factor_values fm)) fms = map (fun n => [n; rank]) ns ->
  exists t : dense A,
    cp_to_tensor (Some w, fms) = Ok t /\
    shape (dense_values t) = ns /\
    wf (dense_values t) /\
    forall idx : list nat,
      valid_index ns idx ->
      get (dense_values t) idx
      = sum_of
          (map (fun r =>
                  fold_left mul
                    (map (fun p => get (factor_values (fst p)) [snd p; r])
                       (combine fms idx))
                    (get w [r]))
             (seq 0 rank)).
Proof.
  intros Hn Hw Hfs.
  assert (weights_fit (Some w) fms rank) as Hfit.
  { cbn [weights_fit]. rewrite Hw. simpl. lia. }
  destruct (cp_to_tensor_ok (Some w) fms rank ns Hn Hfit Hfs) as (t & Ht & Hvalues).
  exists t. split; [exact Ht|]. rewrite Hvalues.
  cbn [weights_used]. rewrite (flattened_vector w rank Hw).
  split; [reflexivity|]. split; [apply wf_build|].
  intros idx Hidx. now rewrite get_build.
Qed.

(** C2: for a Tucker decomposition with a core of shape [(R_0, ..., R_{M-1})]
    and factor matrices of shapes [(n_m, R_m)], at most 26 of them,
    [tucker_to_tensor] returns a plain array of shape [(n_0, ..., n_{M-1})]
    whose entry at [(i_0, ..., i_{M-1})] is the sum over all core indices
    [(r_0, ..., r_{M-1})] of the core entry multiplied by the product over the
    modes of [A_m[i_m, r_m]]; and whatever its input, the function never
    returns a labelled tensor. *)
Theorem tucker_to_tensor_entries (core : ndarray A) (fms : list (factor_matrix A))
    (ns : list nat) :
  (length fms <= 26 ->
   length (shape core) = length fms ->
   length ns = length fms ->
   map (fun fm => shape (factor_values fm)) fms
     = map (fun p => [fst p; snd p]) (combine ns (shape core)) ->
   exists T : ndarray A,
     tucker_to_tensor (core, fms) = Ok (PlainTensor T) /\
     shape T = ns /\
     wf T /\
     forall idx : list nat,
       valid_index ns idx ->
       get T idx
       = sum_of
           (map (fun ridx =>
                   fold_left mul
                     (map (fun p =>
                             get (factor_values (fst p)) [fst (snd p); snd (snd p)])
                        (combine fms (combine idx ridx)))
                     (get core ridx))
              (indices (shape core)))) /\
  (forall d : DataArray A, tucker_to_tensor (core, fms) <> Ok (LabelledTensor d)).
Proof.
  split.
  - intros Hn Hrs Hns Hfs.
    rewrite (tucker_to_tensor_returns core fms ns Hn Hrs Hns Hfs).
    eexists. split; [reflexivity|]. split; [reflexivity|]. split; [apply wf_build|].
    intros idx Hidx. now rewrite get_build.
  - intros d. unfold tucker_to_tensor.
    destruct (for_each _ _ _) as [subs|e]; cbn [bind]; [|discriminate].
    destruct (einsum _ _) as [tensor|e]; cbn [bind]; discriminate.
Qed.

(** C3 (amended): for a tensor and a valid axis along which the tensor is not
    empty, [unfold_tensor] returns a matrix with as many rows as the tensor
    has entries along that axis and as many columns as the product of the
    other extents, the entry of the tensor at [idx] sitting in row [idx[m]]
    at the row-major offset of the remaining indices. *)
Theorem unfold_tensor_matricises (x : array_like A) (mode : Z) :
  valid_axis mode (ndim (asarray x)) ->
  nth (axis_position mode (ndim (asarray x))) (shape (asarray x)) 0 <> 0 ->
  exists U : ndarray A,
    unfold_tensor (call_with_mode x mode) = Ok U /\
    shape U = [nth (axis_position mode (ndim (asarray x))) (shape (asarray x)) 0;
               size_of (remove_at (axis_position mode (ndim (asarray x)))
                          (shape (asarray x)))] /\
    wf U /\
    forall idx : list nat,
      valid_index (shape (asarray x)) idx ->
      get U [nth (axis_position mode (ndim (asarray x))) idx 0;
             ravel (remove_at (axis_position mode (ndim (asarray x))) (shape (asarray x)))
               (remove_at (axis_position mode (ndim (asarray x))) idx)]
      = get (asarray x) idx.
Proof.
  intros Hv Hrows. eexists. split; [now apply unfold_tensor_returns|].
  split; [reflexivity|]. split.
  - unfold wf, unfolded. cbn [shape data size_of fold_right].
    rewrite length_map, length_indices. simpl. lia.
  - intros idx Hidx. apply get_unfolded; [|exact Hidx].
    now apply axis_position_lt.
Qed.

(** C4 (amended): for a tensor and a valid axis along which the tensor is not
    empty, reshaping the result of [unfold_tensor] to the shape with that axis
    in front and moving axis 0 back to its place gives the tensor back. *)
Theorem unfold_tensor_round_trip (T : ndarray A) (mode : Z) :
  wf T ->
  valid_axis mode (ndim T) ->
  nth (axis_position mode (ndim T)) (shape T) 0 <> 0 ->
  exists U : ndarray A,
    unfold_tensor (call_with_mode (Plain T) mode) = Ok U /\
    fold_tensor U (axis_position mode (ndim T)) (shape T) = Ok T.
Proof.
  intros Hwf Hv Hrows. eexists. split.
  - now apply (unfold_tensor_returns (Plain T)).
  - apply fold_unfolded; [|exact Hwf]. now apply axis_position_lt.
Qed.

(** C5 (amended): for a CP decomposition with at most 26 factor matrices of
    shapes [(n_m, rank)], whose weights are given and hold [rank] elements or
    are omitted with a factor matrix to read the rank from: when every factor
    matrix carries row labels, [cp_to_tensor] returns a labelled tensor whose
    axis names are, in factor order, the declared index names, ["Mode {m}"]
    standing in for a missing one; when these names are pairwise distinct,
    the coordinates of each axis are the row labels of its factor matrix.
    When some factor matrix lacks labels, the result is a plain array. *)
Theorem cp_to_tensor_labelling (weights : option (ndarray A))
    (fms : list (factor_matrix A)) (rank : nat) (ns : list nat) :
  length fms <= 26 ->
  weights_fit weights fms rank ->
  map (fun fm => shape (factor_values fm)) fms = map (fun n => [n; rank]) ns ->
  (forall dfs : list (DataFrame A),
     fms = map LabelledMatrix dfs ->
     exists d : DataArray A,
       cp_to_tensor (weights, fms) = Ok (LabelledTensor d) /\
       da_dims d = map (fun e => axis_name (fst e) (snd e)) (enumerate dfs) /\
       (List.NoDup (da_dims d) ->
        forall (m : nat) (df : DataFrame A),
          nth_error dfs m = Some df ->
          da_coords d !! axis_name m df = Some (df_index_values df))) /\
  (forallb has_labels fms = false ->
   exists T : ndarray A, cp_to_tensor (weights, fms) = Ok (PlainTensor T)).
Proof.
  intros Hn Hfit Hfs. split.
  - intros dfs ->.
    rewrite (cp_to_tensor_labelled weights dfs rank ns).
    + eexists. split; [reflexivity|]. cbn [da_dims da_coords].
      split; [reflexivity|]. intros Hnd m df Hnth.
      apply (record_label_coords (enumerate dfs) (∅, []) (m, df) Hnd).
      now apply In_enumerate.
    + now rewrite length_map in Hn.
    + exact Hfit.
    + now rewrite List.map_map in Hfs.
  - intros Hplain. rewrite (cp_to_tensor_plain weights fms rank ns Hn Hfit Hfs Hplain).
    eexists. reflexivity.
Qed.

(** C6: for between 1 and 26 factor matrices of common rank [rank],
    [cp_to_tensor] with the weights omitted returns what it returns with an
    all-ones weight vector of length [rank]. *)
Theorem cp_to_tensor_default_weights (fms : list (factor_matrix A)) (rank : nat)
    (ns : list nat) :
  1 <= length fms <= 26 ->
  map (fun fm => shape (factor_values fm)) fms = map (fun n => [n; rank]) ns ->
  exists t : dense A,
    cp_to_tensor (None, fms) = Ok t /\
    cp_to_tensor (Some (ones rank), fms) = Ok t.
Proof.
  intros [Hne Hn] Hfs.
  assert (weights_fit None fms rank) as Hnone.
  { cbn [weights_fit]. destruct fms; [simpl in Hne; lia|discriminate]. }
  assert (weights_fit (Some (ones rank)) fms rank) as Hones.
  { cbn [weights_fit]. simpl. lia. }
  destruct (cp_to_tensor_ok None fms rank ns Hn Hnone Hfs) as (t & Ht & _).
  exists t. split; [exact Ht|]. rewrite <- Ht.
  rewrite (cp_to_tensor_returns None fms rank ns Hn Hnone Hfs).
  rewrite (cp_to_tensor_returns (Some (ones rank)) fms rank ns Hn Hones Hfs).
  cbn [weights_used]. rewrite flattened_ones. reflexivity.
Qed.

(** C7: with more than 26 factor matrices both reconstruction functions
    raise the "too many modes" [ValueError]; with 26 or fewer neither raises
    it. *)
Theorem reconstruction_mode_limit (weights : option (ndarray A)) (core : ndarray A)
    (fms : list (factor_matrix A)) :
  (26 < length fms ->
   Forall (fun fm => ndim (factor_values fm) = 2) fms ->
   cp_to_tensor (weights, fms)
   = Raise (ValueError (too_many_modes_msg (-26) (length fms)))) /\
  (26 < length fms ->
   tucker_to_tensor (core, fms)
   = Raise (ValueError (too_many_modes_msg (-25) (length fms)))) /\
  (length fms <= 26 ->
   no_range_error (cp_to_tensor (weights, fms)) /\
   no_range_error (tucker_to_tensor (core, fms))).
Proof.
  split; [|split].
  - apply cp_to_tensor_too_many_modes.
  - apply tucker_to_tensor_too_many_modes.
  - intros Hn. split.
    + now apply cp_to_tensor_no_range_error.
    + now apply tucker_to_tensor_no_range_error.
Qed.

(** C8 (amended): a call of [unfold_tensor] fails with a configuration error
    exactly when neither [mode] nor [axis] is given a value other than [None],
    or both are, whether or not the two values agree. *)
Theorem unfold_tensor_configuration_error (args : arguments A) :
  is_configuration_error (unfold_tensor args) = true <->
  (given (arg_mode args) = false /\ given (arg_axis args) = false) \/
  (given (arg_mode args) = true /\ given (arg_axis args) = true).
Proof.
  destruct args as [x m a].
  destruct (unfold_tensor_dispatch x m a) as (x' & _ & ->).
  unfold new_func, set_mode.
  destruct m as [[|m]|], a as [[|a]|];
    cbn [given arg_mode arg_axis get_default is_none py_ne andb negb set_mode arg_tensor].
  all: rewrite ?unfold_tensor_body_no_type_error.
  all: cbn [is_configuration_error].
  all: intuition discriminate.
Qed.

(** C9: on an input holding exactly one element [extract_singleton] returns
    that element; on an input holding none or several it raises. *)
Theorem extract_singleton_single_element (x : array_like A) :
  wf (asarray x) ->
  (size_of (shape (asarray x)) = 1 ->
   exists v : A, data (asarray x) = [v] /\ extract_singleton x = Ok v) /\
  (size_of (shape (asarray x)) <> 1 ->
   exists e : exn, extract_singleton x = Raise e).
Proof.
  intros Hwf. unfold extract_singleton. rewrite reshape_flat. cbn [bind].
  unfold item, flattened. cbn [shape data size_of fold_right]. rewrite Nat.mul_1_r.
  split; intros Hsize.
  - rewrite Hsize. cbn [Nat.eqb].
    unfold wf in Hwf. rewrite Hsize in Hwf.
    destruct (data (asarray x)) as [|v [|v' l]]; try discriminate.
    exists v. split; reflexivity.
  - destruct (Nat.eqb_spec (size_of (shape (asarray x))) 1) as [Heq|_]; [contradiction|].
    eexists. reflexivity.
Qed.

(** C10: weights of any shape holding [rank] elements are flattened in
    row-major order before use: [cp_to_tensor] returns what it returns on the
    flat vector of the same elements. *)
Theorem cp_to_tensor_flattens_weights (w : ndarray A) (fms : list (factor_matrix A))
    (rank : nat) (ns : list nat) :
  length fms <= 26 ->
  size_of (shape w) = rank ->
  map (fun fm => shape (factor_values fm)) fms = map (fun n => [n; rank]) ns ->
  shape (flattened w) = [rank] /\
  (forall idx : list nat, get (flattened w) [ravel (shape w) idx] = get w idx) /\
  exists t : dense A,
    cp_to_tensor (Some w, fms) = Ok t /\
    cp_to_tensor (Some (flattened w), fms) = Ok t.
Proof.
  intros Hn Hsize Hfs.
  assert (shape (flattened w) = [rank]) as Hshape.
  { unfold flattened. cbn [shape]. now rewrite Hsize. }
  split; [exact Hshape|]. split.
  - intros idx. unfold get, flattened. cbn [shape data ravel size_of fold_right].
    f_equal. lia.
  - assert (weights_fit (Some w) fms rank) as Hfit by exact Hsize.
    assert (weights_fit (Some (flattened w)) fms rank) as Hflat.
    { cbn [weights_fit]. rewrite Hshape. simpl. lia. }
    destruct (cp_to_tensor_ok (Some w) fms rank ns Hn Hfit Hfs) as (t & Ht & _).
    exists t. split; [exact Ht|]. rewrite <- Ht.
    rewrite (cp_to_tensor_returns (Some w) fms rank ns Hn Hfit Hfs).
    rewrite (cp_to_tensor_returns (Some (flattened w)) fms rank ns Hn Hflat Hfs).
    cbn [weights_used]. rewrite (flattened_vector (flattened w) rank Hshape).
    reflexivity.
Qed.

(** * Further properties of the module *)

(** X1: [axis] is an alias of [mode]: a call that gives only [axis] (with
    [mode] left out or passed as [None]) does what the call with that value
    as [mode] does. *)
Theorem unfold_tensor_axis_alias (x : array_like A) (k : Z) :
  unfold_tensor {| arg_tensor := x; arg_mode := None; arg_axis := Some (PyInt k) |}
  = unfold_tensor (call_with_mode x k) /\
  unfold_tensor {| arg_tensor := x; arg_mode := Some PyNone; arg_axis := Some (PyInt k) |}
  = unfold_tensor (call_with_mode x k).
Proof. destruct x; split; reflexivity. Qed.

(** X2: an axis number that fits a C [int] and lies outside [-ndim, ndim)
    makes [unfold_tensor] raise the [AxisError] of [np.moveaxis]; in
    particular every such axis number does on a 0-d input. *)
Theorem unfold_tensor_invalid_axis (x : array_like A) (mode : Z) :
  fits_c_int mode ->
  ~ valid_axis mode (ndim (asarray x)) ->
  unfold_tensor (call_with_mode x mode) = Raise (AxisError mode (ndim (asarray x))).
Proof.
  intros _ Hinvalid. rewrite unfold_tensor_with_mode.
  unfold moveaxis, normalize_axis_index.
  destruct ((- Z.of_nat (ndim (asarray x)) <=? mode)%Z && (mode <? Z.of_nat (ndim (asarray x)))%Z)
    eqn:Hb; [|reflexivity].
  exfalso. apply Hinvalid. apply andb_true_iff in Hb. destruct Hb as [Hlo Hhi].
  apply Z.leb_le in Hlo. apply Z.ltb_lt in Hhi. split; assumption.
Qed.

(** X3: along a valid axis of extent 0 [unfold_tensor] raises the
    [ValueError] of the reshape, whose [-1] cannot be inferred. *)
Theorem unfold_tensor_empty_axis_raises (x : array_like A) (mode : Z) :
  valid_axis mode (ndim (asarray x)) ->
  nth (axis_position mode (ndim (asarray x))) (shape (asarray x)) 0 = 0 ->
  unfold_tensor (call_with_mode x mode)
  = Raise (ValueError "cannot reshape array into the requested shape").
Proof. apply unfold_tensor_empty_axis. Qed.

(** X4: a negative axis number counts from the end: [unfold_tensor] does
    with [mode] what it does with [mode + ndim]. *)
Theorem unfold_tensor_negative_axis (x : array_like A) (mode : Z) :
  valid_axis mode (ndim (asarray x)) ->
  (mode < 0)%Z ->
  unfold_tensor (call_with_mode x mode)
  = unfold_tensor (call_with_mode x (mode + Z.of_nat (ndim (asarray x)))).
Proof.
  intros Hv Hneg.
  assert (valid_axis (mode + Z.of_nat (ndim (asarray x))) (ndim (asarray x))) as Hv'.
  { unfold valid_axis in *. lia. }
  assert (axis_position (mode + Z.of_nat (ndim (asarray x))) (ndim (asarray x))
          = axis_position mode (ndim (asarray x))) as Hpos.
  { unfold axis_position.
    destruct (Z.ltb_spec mode 0) as [_|Hge]; [|lia].
    destruct (Z.ltb_spec (mode + Z.of_nat (ndim (asarray x))) 0) as [Hlt|_];
      [unfold valid_axis in Hv; lia|reflexivity]. }
  destruct (Nat.eq_dec (nth (axis_position mode (ndim (asarray x))) (shape (asarray x)) 0) 0)
    as [Hzero|Hpositive].
  - rewrite (unfold_tensor_empty_axis x mode Hv Hzero).
    rewrite (unfold_tensor_empty_axis x _ Hv'); [reflexivity|]. now rewrite Hpos.
  - rewrite (unfold_tensor_returns x mode Hv Hpositive).
    rewrite (unfold_tensor_returns x _ Hv'); [now rewrite Hpos|]. now rewrite Hpos.
Qed.

(** X5: unfolding along the first axis does not reorder anything: the
    result holds the elements of the tensor in their row-major order. *)
Theorem unfold_tensor_first_axis (T : ndarray A) (rows : nat) (rest : list nat) :
  wf T ->
  shape T = rows :: rest ->
  rows <> 0 ->
  unfold_tensor (call_with_mode (Plain T) 0) = Ok (NdArray [rows; size_of rest] (data T)).
Proof.
  intros Hwf Hshape Hrows.
  rewrite (unfold_tensor_returns (Plain T) 0).
  - cbn [asarray]. unfold ndim. rewrite Hshape. cbn [length].
    change (axis_position 0 (S (length rest))) with 0.
    unfold unfolded. rewrite Hshape. cbn [nth]. change (remove_at 0 (rows :: rest)) with rest.
    f_equal. f_equal.
    transitivity (data (build (shape T) (get T))); [|now rewrite build_get].
    unfold build. cbn [data]. rewrite Hshape. apply map_ext_in.
    intros idx Hidx. apply indices_valid in Hidx.
    inversion Hidx; subst. reflexivity.
  - cbn [asarray]. unfold valid_axis, ndim. rewrite Hshape. cbn [length]. lia.
  - cbn [asarray]. unfold ndim. rewrite Hshape. cbn [length].
    change (axis_position 0 (S (length rest))) with 0. exact Hrows.
Qed.

(** X6: unfolding a matrix along its second axis transposes it. *)
Theorem unfold_tensor_matrix_transposes (T : ndarray A) (rows cols : nat) :
  shape T = [rows; cols] ->
  cols <> 0 ->
  exists U : ndarray A,
    unfold_tensor (call_with_mode (Plain T) 1) = Ok U /\
    shape U = [cols; rows] /\
    forall i j : nat, i < rows -> j < cols -> get U [j; i] = get T [i; j].
Proof.
  intros Hshape Hcols.
  assert (valid_axis 1 (ndim (asarray (Plain T)))) as Hv.
  { cbn [asarray]. unfold valid_axis, ndim. rewrite Hshape. cbn [length]. lia. }
  assert (axis_position 1 (ndim (asarray (Plain T))) = 1) as Hpos.
  { cbn [asarray]. unfold ndim. now rewrite Hshape. }
  rewrite (unfold_tensor_returns (Plain T) 1 Hv).
  - rewrite Hpos. cbn [asarray]. eexists. split; [reflexivity|]. split.
    + unfold unfolded. rewrite Hshape. cbn [shape nth]. f_equal. f_equal.
      change (remove_at 1 [rows; cols]) with [rows]. simpl. lia.
    + intros i j Hi Hj.
      rewrite <- (get_unfolded T 1 [i; j]).
      * rewrite Hshape. change (remove_at 1 [rows; cols]) with [rows].
        change (remove_at 1 [i; j]) with [i]. cbn [nth ravel size_of fold_right].
        f_equal. f_equal. f_equal. lia.
      * unfold ndim. rewrite Hshape. cbn [length]. lia.
      * rewrite Hshape. repeat constructor; assumption.
  - rewrite Hpos. cbn [asarray]. rewrite Hshape. exact Hcols.
Qed.

(** X7: when the decorated function gives [mode] a default, the decorator
    lets a call without [mode] and [axis] through untouched, hands [axis] to
    the function as [mode], and reports a conflict only when [mode] differs
    from its default: [mode] passed with the default value together with
    [axis] is accepted, and [axis] wins. *)
Theorem alias_mode_axis_with_default {R : Type} (sig : signature)
    (func : arguments A -> result R) (d : Z) :
  has_parameter "axis" sig = true ->
  parameter "mode" sig = Some (Some (PyInt d)) ->
  exists decorated : arguments A -> result R,
    _alias_mode_axis sig func = Ok decorated /\
    (forall x : array_like A,
       decorated {| arg_tensor := x; arg_mode := None; arg_axis := None |}
       = func {| arg_tensor := x; arg_mode := None; arg_axis := None |}) /\
    (forall (x : array_like A) (a : Z),
       decorated {| arg_tensor := x; arg_mode := None; arg_axis := Some (PyInt a) |}
       = func {| arg_tensor := x; arg_mode := Some (PyInt a); arg_axis := Some (PyInt a) |}) /\
    (forall (x : array_like A) (a : Z),
       decorated {| arg_tensor := x; arg_mode := Some (PyInt d); arg_axis := Some (PyInt a) |}
       = func {| arg_tensor := x; arg_mode := Some (PyInt a); arg_axis := Some (PyInt a) |}) /\
    (forall (x : array_like A) (m a : Z),
       m <> d ->
       decorated {| arg_tensor := x; arg_mode := Some (PyInt m); arg_axis := Some (PyInt a) |}
       = Raise (TypeError "Either ``mode`` or ``axis`` can be specified, not both.")).
Proof.
  intros Haxis Hmode. unfold _alias_mode_axis, has_parameter. rewrite Hmode.
  unfold has_parameter in Haxis. rewrite Haxis. cbn [negb orb].
  eexists. split; [reflexivity|].
  unfold new_func, set_mode.
  cbn [arg_mode arg_axis arg_tensor get_default is_none py_ne andb negb].
  rewrite Z.eqb_refl. cbn [negb andb].
  repeat split; try reflexivity.
  intros x m a Hne. destruct (Z.eqb_spec m d) as [Heq|_]; [contradiction|]. reflexivity.
Qed.

(** X8: with the weights omitted the rank is read off the first factor
    matrix: with no factor matrix, or a first one of fewer than two
    dimensions, [cp_to_tensor] raises [IndexError]. *)
Theorem cp_to_tensor_omitted_weights_need_rank (fms : list (factor_matrix A)) :
  match fms with
  | [] => True
  | fm :: _ => ndim (factor_values fm) < 2
  end ->
  exists msg : string, cp_to_tensor (None, fms) = Raise (IndexError msg).
Proof.
  intros Hfirst. unfold cp_to_tensor, cp_weights. cbn [fst snd].
  destruct fms as [|fm fms].
  - eexists. reflexivity.
  - unfold ndim in Hfirst. unfold tuple_item.
    destruct (shape (factor_values fm)) as [|n [|r rest]]; cbn [length] in *.
    + eexists. reflexivity.
    + eexists. reflexivity.
    + lia.
Qed.

(** X9: [tucker_to_tensor] does with labelled factor matrices exactly what
    it does with their values. *)
Theorem tucker_to_tensor_ignores_labels (core : ndarray A) (fms : list (factor_matrix A)) :
  tucker_to_tensor (core, fms) = tucker_to_tensor (core, map strip_labels fms).
Proof.
  unfold tucker_to_tensor. cbn [fst snd]. rewrite length_map, List.map_map.
  reflexivity.
Qed.

Lemma cp_labelling_keeps_values (weights : option (ndarray A))
    (fms : list (factor_matrix A)) (tensor : ndarray A) :
  result_values
    (if negb (is_labelled_cp (weights, fms)) then Ok (PlainTensor tensor)
     else
       labels <- for_each cp_label_step (enumerate fms) (∅, []) ;;
       Ok (LabelledTensor
             {| da_values := tensor; da_dims := snd labels; da_coords := fst labels |}))
  = Ok tensor.
Proof.
  unfold is_labelled_cp. cbn [snd].
  destruct (forallb has_labels fms) eqn:Hall; cbn [negb]; [|reflexivity].
  destruct (labelled_frames fms Hall) as [dfs ->].
  unfold enumerate. rewrite length_map, cp_label_loop. reflexivity.
Qed.

(** X10: labels never change the numbers: [cp_to_tensor] returns the same
    values, or raises the same exception, with and without the labels of the
    factor matrices. *)
Theorem cp_to_tensor_values_ignore_labels (weights : option (ndarray A))
    (fms : list (factor_matrix A)) :
  result_values (cp_to_tensor (weights, fms))
  = result_values (cp_to_tensor (weights, map strip_labels fms)).
Proof.
  unfold cp_to_tensor.
  assert (cp_weights (weights, map strip_labels fms) = cp_weights (weights, fms)) as ->.
  { unfold cp_weights. cbn [fst snd]. destruct weights; [reflexivity|].
    destruct fms; reflexivity. }
  cbn [snd]. rewrite length_map, List.map_map.
  change (fun x => factor_values (strip_labels x)) with (@factor_values A).
  destruct (cp_weights (weights, fms)) as [w|e]; cbn [bind]; [|reflexivity].
  destruct (for_each _ _ _) as [subs|e]; cbn [bind]; [|reflexivity].
  destruct (einsum _ _) as [tensor|e]; cbn [bind]; [|reflexivity].
  now rewrite !cp_labelling_keeps_values.
Qed.

(** X11: for up to 26 modes the loop of [cp_to_tensor] completes and writes
    ["R, aR, bR, ..."] and ["ab..."]: mode [m] gets the [m]-th lower-case
    letter, and the letters are pairwise distinct. *)
Theorem cp_subscripts_distinct_letters (n n_modes : nat) :
  n_modes <= 26 ->
  exists subscripts : string * string,
    for_each (cp_subscript_step n) (seq 0 n_modes) ("R"%string, ""%string) = Ok subscripts /\
    list_ascii_of_string (fst subscripts)
      = "R"%char :: flat_map (fun m => [","; " "; mode_symbol m; "R"]%char) (seq 0 n_modes) /\
    list_ascii_of_string (snd subscripts) = map mode_symbol (seq 0 n_modes) /\
    List.NoDup (map mode_symbol (seq 0 n_modes)) /\
    forall m : nat, m < n_modes -> ord (mode_symbol m) = ord "a" + m /\ ord (mode_symbol m) <= ord "z".
Proof.
  intros Hn.
  destruct (cp_subscript_loop n 0 n_modes ("R"%string, ""%string)) as (st & Hloop & Hin & Hout);
    [lia|].
  exists st. split; [exact Hloop|]. split; [exact Hin|]. split; [exact Hout|].
  split; [now apply NoDup_mode_symbols|].
  intros m Hm. rewrite ord_mode_symbol by lia.
  change (ord "a") with 97. change (ord "z") with 122. lia.
Qed.

(** X12: for up to 26 modes the loop of [tucker_to_tensor] completes and
    writes the core term ["AB..."], the operand terms [", aA, bB, ..."] and the
    output ["ab..."]; all the symbols used are pairwise distinct. *)
Theorem tucker_subscripts_distinct_letters (n n_modes : nat) :
  n_modes <= 26 ->
  exists subscripts : string * string * string,
    for_each (tucker_subscript_step n) (seq 0 n_modes) (""%string, ""%string, ""%string)
      = Ok subscripts /\
    list_ascii_of_string (fst (fst subscripts)) = map rank_symbol (seq 0 n_modes) /\
    list_ascii_of_string (snd (fst subscripts))
      = flat_map (fun m => [","; " "; mode_symbol m; rank_symbol m]%char) (seq 0 n_modes) /\
    list_ascii_of_string (snd subscripts) = map mode_symbol (seq 0 n_modes) /\
    List.NoDup (map rank_symbol (seq 0 n_modes) ++ map mode_symbol (seq 0 n_modes)).
Proof.
  intros Hn.
  destruct (tucker_subscript_loop n 0 n_modes (""%string, ""%string, ""%string))
    as (st & Hloop & Hcore & Hin & Hout); [lia|].
  exists st. split; [exact Hloop|]. split; [exact Hcore|]. split; [exact Hin|].
  split; [exact Hout|].
  apply List.NoDup_app.
  - now apply NoDup_rank_symbols.
  - now apply NoDup_mode_symbols.
  - intros c Hc Hc'. apply In_rank_symbols in Hc. destruct Hc as (m & Hm & ->).
    apply (rank_symbol_not_mode n_modes m); [exact Hn|lia|exact Hc'].
Qed.

(** X13: with weights and no factor matrix [cp_to_tensor] returns the 0-d
    tensor holding the sum of the weights. *)
Theorem cp_to_tensor_no_factor_matrices (w : ndarray A) (rank : nat) :
  wf w ->
  shape w = [rank] ->
  exists t : dense A,
    cp_to_tensor (Some w, []) = Ok t /\
    shape (dense_values t) = [] /\
    get (dense_values t) [] = sum_of (data w).
Proof.
  intros Hwf Hshape.
  assert (weights_fit (Some w) [] rank) as Hfit.
  { cbn [weights_fit]. rewrite Hshape. simpl. lia. }
  destruct (cp_to_tensor_ok (Some w) [] rank [] ltac:(simpl; lia) Hfit eq_refl)
    as (t & Ht & Hvalues).
  exists t. split; [exact Ht|]. rewrite Hvalues. split; [reflexivity|].
  rewrite get_build by constructor.
  cbn [weights_used combine map fold_left]. rewrite (flattened_vector w rank Hshape).
  f_equal. unfold wf in Hwf. rewrite Hshape in Hwf. simpl in Hwf.
  rewrite Nat.mul_1_r in Hwf. rewrite <- Hwf.
  rewrite <- (map_nth_seq_id (data w) zero) at 2.
  apply map_ext. intros r. unfold get. rewrite Hshape. cbn [ravel size_of fold_right].
  f_equal. lia.
Qed.

(** X14: a decomposition of rank 0 reconstructs to the all-zero tensor of
    the shape the factor matrices give. *)
Theorem cp_to_tensor_rank_zero (w : ndarray A) (fms : list (factor_matrix A))
    (ns : list nat) :
  length fms <= 26 ->
  shape w = [0] ->
  map (fun fm => shape (factor_values fm)) fms = map (fun n => [n; 0]) ns ->
  exists t : dense A,
    cp_to_tensor (Some w, fms) = Ok t /\
    shape (dense_values t) = ns /\
    forall idx : list nat, valid_index ns idx -> get (dense_values t) idx = zero.
Proof.
  intros Hn Hshape Hfs.
  assert (weights_fit (Some w) fms 0) as Hfit.
  { cbn [weights_fit]. rewrite Hshape. reflexivity. }
  destruct (cp_to_tensor_ok (Some w) fms 0 ns Hn Hfit Hfs) as (t & Ht & Hvalues).
  exists t. split; [exact Ht|]. rewrite Hvalues. split; [reflexivity|].
  intros idx Hidx. now rewrite get_build.
Qed.

(** X15: on an input that does not hold exactly one element
    [extract_singleton] raises the [ValueError] of [item]. *)
Theorem extract_singleton_wrong_size (x : array_like A) :
  wf (asarray x) ->
  length (data (asarray x)) <> 1 ->
  extract_singleton x
  = Raise (ValueError "can only convert an array of size 1 to a Python scalar").
Proof.
  intros Hwf Hsize. unfold extract_singleton. rewrite reshape_flat. cbn [bind].
  unfold item, flattened. cbn [shape data size_of fold_right]. rewrite Nat.mul_1_r.
  unfold wf in Hwf. rewrite <- Hwf.
  destruct (Nat.eqb_spec (length (data (asarray x))) 1) as [Heq|_]; [contradiction|].
  reflexivity.
Qed.


End ArrayFacts.

(** * The properties at work, and where the specification overstates *)

Lemma cp_to_tensor_entries_witness :
  exists t : dense Z,
    cp_to_tensor (Some sample_weights, sample_factors) = Ok t /\
    shape (dense_values t) = [2; 3] /\
    get (dense_values t) [1; 2] = 430%Z.
Proof.
  destruct (cp_to_tensor_entries sample_weights sample_factors 2 [2; 3])
    as (t & Ht & Hshape & _ & Hget).
  - simpl. lia.
  - reflexivity.
  - reflexivity.
  - exists t. split; [exact Ht|]. split; [exact Hshape|].
    rewrite Hget; [reflexivity|]. repeat constructor.
Defined.

Lemma tucker_to_tensor_entries_witness :
  exists T : ndarray Z,
    tucker_to_tensor (sample_core, sample_factors) = Ok (PlainTensor T) /\
    shape T = [2; 3] /\
    get T [1; 2] = 7%Z.
Proof.
  destruct (proj1 (tucker_to_tensor_entries sample_core sample_factors [2; 3]))
    as (T & HT & Hshape & _ & Hget).
  - simpl. lia.
  - reflexivity.
  - reflexivity.
  - reflexivity.
  - exists T. split; [exact HT|]. split; [exact Hshape|].
    rewrite Hget; [reflexivity|]. repeat constructor.
Defined.

Lemma unfold_tensor_matricises_witness :
  exists U : ndarray Z,
    unfold_tensor (call_with_mode (Plain sample_tensor) 1) = Ok U /\
    shape U = [3; 2] /\
    get U [2; 1] = get sample_tensor [1; 2].
Proof.
  destruct (unfold_tensor_matricises (Plain sample_tensor) 1) as (U & HU & Hshape & _ & Hget).
  - unfold valid_axis, ndim. cbn. lia.
  - simpl. lia.
  - exists U. split; [exact HU|]. split; [exact Hshape|].
    apply (Hget [1; 2]). repeat constructor.
Defined.

Lemma unfold_tensor_round_trip_witness :
  exists U : ndarray Z,
    unfold_tensor (call_with_mode (Plain sample_tensor) (-1)) = Ok U /\
    fold_tensor U 1 [2; 3] = Ok sample_tensor.
Proof.
  apply (unfold_tensor_round_trip sample_tensor (-1)).
  - reflexivity.
  - unfold valid_axis, ndim. cbn. lia.
  - simpl. lia.
Defined.

Lemma cp_to_tensor_labelling_witness :
  (exists d : DataArray Z,
     cp_to_tensor (None, map LabelledMatrix labelled_factors) = Ok (LabelledTensor d) /\
     da_dims d = ["x"; "Mode 1"]%string /\
     da_coords d !! "Mode 1"%string = Some [LabelStr "a"; LabelStr "b"; LabelStr "c"]) /\
  (exists T : ndarray Z,
     cp_to_tensor (None, [LabelledMatrix frame_x; Matrix sample_A1]) = Ok (PlainTensor T)).
Proof.
  split.
  - destruct (proj1 (cp_to_tensor_labelling None (map LabelledMatrix labelled_factors) 2 [2; 3]
                       ltac:(simpl; lia) ltac:(discriminate) eq_refl)
                labelled_factors eq_refl) as (d & Hd & Hdims & Hcoords).
    exists d. split; [exact Hd|]. split; [exact Hdims|].
    apply (Hcoords ltac:(rewrite Hdims; repeat constructor; simpl; intuition discriminate)
             1 frame_unnamed eq_refl).
  - apply (proj2 (cp_to_tensor_labelling None [LabelledMatrix frame_x; Matrix sample_A1] 2 [2; 3]
                    ltac:(simpl; lia) ltac:(discriminate) eq_refl)).
    reflexivity.
Defined.

Lemma cp_to_tensor_default_weights_witness :
  exists t : dense Z,
    cp_to_tensor (None, sample_factors) = Ok t /\
    cp_to_tensor (Some (ones 2), sample_factors) = Ok t.
Proof.
  apply (cp_to_tensor_default_weights sample_factors 2 [2; 3]).
  - simpl. lia.
  - reflexivity.
Defined.

Lemma reconstruction_mode_limit_witness :
  cp_to_tensor (None, many_factors)
  = Raise (ValueError "Cannot have more than -26 modes. Current components have 27.") /\
  tucker_to_tensor (sample_core, many_factors)
  = Raise (ValueError "Cannot have more than -25 modes. Current components have 27.") /\
  no_range_error (cp_to_tensor (Some sample_weights, sample_factors)).
Proof.
  split; [|split].
  - apply (proj1 (reconstruction_mode_limit None sample_core many_factors)).
    + simpl. lia.
    + repeat constructor.
  - apply (proj1 (proj2 (reconstruction_mode_limit None sample_core many_factors))).
    simpl. lia.
  - apply (proj2 (proj2 (reconstruction_mode_limit (Some sample_weights) sample_core
                           sample_factors))
             ltac:(simpl; lia)).
Defined.

Lemma extract_singleton_single_element_witness :
  exists v : Z,
    data (asarray (Plain (NdArray [1; 1] [7%Z]))) = [v] /\
    extract_singleton (Plain (NdArray [1; 1] [7%Z])) = Ok v.
Proof.
  apply (proj1 (extract_singleton_single_element (Plain (NdArray [1; 1] [7%Z])) eq_refl)).
  reflexivity.
Defined.

Lemma cp_to_tensor_flattens_weights_witness :
  exists t : dense Z,
    cp_to_tensor (Some sample_column_weights, sample_factors) = Ok t /\
    cp_to_tensor (Some (flattened sample_column_weights), sample_factors) = Ok t.
Proof.
  apply (cp_to_tensor_flattens_weights sample_column_weights sample_factors 2 [2; 3]).
  - simpl. lia.
  - reflexivity.
  - reflexivity.
Defined.

(** C3 as stated overlooks an axis of extent 0: NumPy cannot infer the [-1]
    of a reshape whose known extents multiply to zero. *)
Lemma unfold_tensor_empty_rows_raises :
  valid_axis 0 (ndim empty_rows) /\
  unfold_tensor (call_with_mode (Plain empty_rows) 0)
  = Raise (ValueError "cannot reshape array into the requested shape").
Proof. split; [unfold valid_axis, ndim; cbn; lia|reflexivity]. Qed.

(** C4 as stated fails on the same kind of input: there is no unfolded matrix
    to fold back. *)
Lemma unfold_tensor_empty_columns_no_round_trip :
  wf empty_columns /\
  valid_axis 1 (ndim empty_columns) /\
  ~ exists U : ndarray Z,
      unfold_tensor (call_with_mode (Plain empty_columns) 1) = Ok U /\
      fold_tensor U 1 (shape empty_columns) = Ok empty_columns.
Proof.
  split; [reflexivity|]. split; [unfold valid_axis, ndim; cbn; lia|].
  intros (U & HU & _). discriminate HU.
Qed.

(** C5 as stated overlooks factor matrices whose axis names coincide: the
    coordinates are keyed by name, so the later factor matrix overwrites the
    earlier one. *)
Lemma cp_to_tensor_shared_axis_name :
  exists d : DataArray Z,
    cp_to_tensor (None, [LabelledMatrix frame_x; LabelledMatrix frame_x_again])
    = Ok (LabelledTensor d) /\
    da_dims d = ["x"; "x"]%string /\
    da_coords d !! "x"%string = Some (df_index_values frame_x_again) /\
    da_coords d !! axis_name 0 frame_x <> Some (df_index_values frame_x).
Proof.
  change [LabelledMatrix frame_x; LabelledMatrix frame_x_again]
    with (map (@LabelledMatrix Z) [frame_x; frame_x_again]).
  rewrite (cp_to_tensor_labelled None [frame_x; frame_x_again] 2 [2; 2]
             ltac:(simpl; lia) ltac:(discriminate) eq_refl).
  eexists. split; [reflexivity|]. cbn [da_dims da_coords].
  split; [reflexivity|].
  cbn [enumerate length seq combine fold_left record_label fst snd axis_name
         frame_x frame_x_again df_index_name df_index_values].
  rewrite lookup_insert_eq. split; [reflexivity|discriminate].
Qed.

(** C5 as stated also sets no bound on the number of modes: with 27 labelled
    factor matrices the subscript loop raises before any label is read. *)
Lemma cp_to_tensor_many_labelled_factors_raise :
  cp_to_tensor (None, repeat (LabelledMatrix frame_x) 27)
  = Raise (ValueError "Cannot have more than -26 modes. Current components have 27.").
Proof. reflexivity. Qed.

(** C8 as stated lets [mode] and [axis] be given together when they agree;
    the decorator refuses the pair whatever its values. *)
Lemma unfold_tensor_mode_and_axis_agreeing :
  unfold_tensor
    {| arg_tensor := Plain sample_tensor;
       arg_mode := Some (PyInt 1);
       arg_axis := Some (PyInt 1) |}
  = Raise (TypeError "Either ``mode`` or ``axis`` can be specified, not both.").
Proof. reflexivity. Qed.

(** ** Integer tensors *)

Lemma get_eye (n i r : nat) :
  i < n -> r < n -> get (eye n) [i; r] = if i =? r then 1%Z else 0%Z.
Proof.
  intros Hi Hr. unfold eye. rewrite get_build by (repeat constructor; assumption).
  reflexivity.
Qed.

Lemma fold_left_mul_zero (l : list Z) : fold_left Z.mul l 0%Z = 0%Z.
Proof. induction l as [|x l IH]; simpl; [reflexivity|exact IH]. Qed.

Lemma fold_left_add_from (l : list Z) (a : Z) :
  fold_left Z.add l a = (a + fold_left Z.add l 0)%Z.
Proof.
  revert a. induction l as [|x l IH]; intros a; cbn [fold_left].
  - lia.
  - rewrite (IH (a + x)%Z), (IH (0 + x)%Z). lia.
Qed.

Lemma sum_of_selected {X : Type} (eq_dec : forall x y : X, {x = y} + {x <> y})
    (f : X -> Z) (l : list X) (x : X) :
  List.NoDup l -> In x l ->
  fold_left Z.add (map (fun y => if eq_dec x y then f y else 0%Z) l) 0%Z = f x.
Proof.
  intros Hnd. induction Hnd as [|y l Hnin Hnd IH]; intros Hin.
  - destruct Hin.
  - cbn [map fold_left]. rewrite fold_left_add_from.
    destruct (eq_dec x y) as [<-|Hne].
    + assert (fold_left Z.add (map (fun y => if eq_dec x y then f y else 0%Z) l) 0%Z = 0%Z)
        as ->; [|lia].
      clear IH Hin Hnd. induction l as [|z l IHl]; [reflexivity|].
      cbn [map fold_left]. destruct (eq_dec x z) as [<-|_].
      * exfalso. apply Hnin. now left.
      * apply IHl. intros Hin. apply Hnin. now right.
    + destruct Hin as [->|Hin]; [congruence|]. rewrite (IH Hin). lia.
Qed.

Lemma NoDup_indices (s : list nat) : List.NoDup (indices s).
Proof.
  apply (NoDup_map_inv (ravel s)). rewrite map_ravel_indices. apply seq_NoDup.
Qed.

Lemma In_indices (s idx : list nat) : valid_index s idx -> In idx (indices s).
Proof.
  intros Hv. rewrite <- (nth_indices s idx [] Hv). apply nth_In.
  rewrite length_indices. now apply ravel_lt.
Qed.

Lemma combine_diagonal {X : Type} (l : list X) : combine l l = map (fun x => (x, x)) l.
Proof. induction l as [|x l IH]; simpl; [reflexivity|now rewrite IH]. Qed.

Lemma identity_factors_select (s idx ridx : list nat) (c : Z) :
  valid_index s idx -> valid_index s ridx ->
  fold_left Z.mul
    (map (fun p : factor_matrix Z * (nat * nat) =>
            get (factor_values (fst p)) [fst (snd p); snd (snd p)])
       (combine (map (fun n => Matrix (eye n)) s) (combine idx ridx)))
    c
  = if List.list_eq_dec PeanoNat.Nat.eq_dec idx ridx then c else 0%Z.
Proof.
  intros Hidx. revert ridx c.
  induction Hidx as [|i n idx s Hi Hidx IH]; intros ridx c Hridx.
  - inversion Hridx; subst. reflexivity.
  - inversion Hridx as [|r ? ridx' ? Hr Hridx']; subst.
    cbn [map combine fold_left fst snd factor_values].
    rewrite get_eye by assumption. rewrite (IH ridx' _ Hridx').
    destruct (Nat.eqb_spec i r) as [->|Hne].
    + destruct (List.list_eq_dec PeanoNat.Nat.eq_dec idx ridx') as [->|Hne'].
      * destruct (List.list_eq_dec PeanoNat.Nat.eq_dec (r :: ridx') (r :: ridx')); [lia|congruence].
      * destruct (List.list_eq_dec PeanoNat.Nat.eq_dec (r :: idx) (r :: ridx')); [congruence|reflexivity].
    + destruct (List.list_eq_dec PeanoNat.Nat.eq_dec (i :: idx) (r :: ridx')); [congruence|].
      destruct (List.list_eq_dec PeanoNat.Nat.eq_dec idx ridx'); lia.
Qed.

(** X16: with identity matrices as factor matrices [tucker_to_tensor]
    returns the core itself (integer entries). *)
Theorem tucker_to_tensor_identity_factors (core : ndarray Z) :
  wf core ->
  length (shape core) <= 26 ->
  tucker_to_tensor (core, map (fun n => Matrix (eye n)) (shape core))
  = Ok (PlainTensor core).
Proof.
  intros Hwf Hn.
  rewrite (tucker_to_tensor_returns core _ (shape core)).
  - f_equal. f_equal. etransitivity; [|exact (build_get core Hwf)].
    apply build_ext. intros idx Hidx.
    unfold sum_of. cbn [add zero mul Z_scalar].
    rewrite (map_ext_in _
               (fun ridx => if List.list_eq_dec PeanoNat.Nat.eq_dec idx ridx then get core ridx else 0%Z)).
    + apply (sum_of_selected (List.list_eq_dec PeanoNat.Nat.eq_dec) (get core)).
      * apply NoDup_indices.
      * now apply In_indices.
    + intros ridx Hridx. apply indices_valid in Hridx.
      now apply identity_factors_select.
  - now rewrite length_map.
  - now rewrite length_map.
  - now rewrite length_map.
  - rewrite List.map_map, combine_diagonal, List.map_map. reflexivity.
Qed.

(** ** The further properties at work *)

Lemma unfold_tensor_invalid_axis_witness :
  unfold_tensor (call_with_mode (Plain sample_tensor) 2) = Raise (AxisError 2 2).
Proof.
  apply (unfold_tensor_invalid_axis (Plain sample_tensor) 2).
  - unfold fits_c_int. lia.
  - unfold valid_axis, ndim. cbn. lia.
Defined.

Lemma unfold_tensor_empty_axis_raises_witness :
  unfold_tensor (call_with_mode (Plain empty_columns) (-1))
  = Raise (ValueError "cannot reshape array into the requested shape").
Proof.
  apply (unfold_tensor_empty_axis_raises (Plain empty_columns) (-1)).
  - unfold valid_axis, ndim. cbn. lia.
  - reflexivity.
Defined.

Lemma unfold_tensor_negative_axis_witness :
  unfold_tensor (call_with_mode (Plain sample_tensor) (-1))
  = unfold_tensor (call_with_mode (Plain sample_tensor) 1).
Proof.
  apply (unfold_tensor_negative_axis (Plain sample_tensor) (-1)).
  - unfold valid_axis, ndim. cbn. lia.
  - lia.
Defined.

Lemma unfold_tensor_first_axis_witness :
  unfold_tensor (call_with_mode (Plain sample_tensor) 0)
  = Ok (NdArray [2; 3] [1; 2; 3; 4; 5; 6]%Z).
Proof.
  apply (unfold_tensor_first_axis sample_tensor 2 [3]).
  - reflexivity.
  - reflexivity.
  - lia.
Defined.

Lemma unfold_tensor_matrix_transposes_witness :
  exists U : ndarray Z,
    unfold_tensor (call_with_mode (Plain sample_tensor) 1) = Ok U /\
    shape U = [3; 2] /\
    get U [2; 0] = get sample_tensor [0; 2].
Proof.
  destruct (unfold_tensor_matrix_transposes sample_tensor 2 3 eq_refl ltac:(lia))
    as (U & HU & Hshape & Hget).
  exists U. split; [exact HU|]. split; [exact Hshape|]. apply Hget; lia.
Defined.

Lemma alias_mode_axis_with_default_witness :
  exists decorated : arguments Z -> result (ndarray Z),
    _alias_mode_axis signature_with_default unfold_tensor_body = Ok decorated /\
    decorated {| arg_tensor := Plain sample_tensor;
                 arg_mode := Some (PyInt 0);
                 arg_axis := Some (PyInt 1) |}
    = unfold_tensor_body {| arg_tensor := Plain sample_tensor;
                            arg_mode := Some (PyInt 1);
                            arg_axis := Some (PyInt 1) |}.
Proof.
  destruct (alias_mode_axis_with_default signature_with_default
              (unfold_tensor_body (A := Z)) 0 eq_refl eq_refl)
    as (decorated & Hdec & _ & _ & Hdefault & _).
  exists decorated. split; [exact Hdec|]. apply Hdefault.
Defined.

Lemma cp_to_tensor_omitted_weights_need_rank_witness :
  exists msg : string, cp_to_tensor (A := Z) (None, []) = Raise (IndexError msg).
Proof. apply (cp_to_tensor_omitted_weights_need_rank (A := Z) []). exact I. Defined.

Lemma cp_subscripts_distinct_letters_witness :
  exists subscripts : string * string,
    for_each (cp_subscript_step 3) (seq 0 3) ("R"%string, ""%string) = Ok subscripts /\
    snd subscripts = "abc"%string.
Proof.
  destruct (cp_subscripts_distinct_letters 3 3 ltac:(lia)) as (subs & Hloop & _).
  exists subs. split; [exact Hloop|].
  cbv in Hloop. injection Hloop as <-. reflexivity.
Defined.

Lemma tucker_subscripts_distinct_letters_witness :
  exists subscripts : string * string * string,
    for_each (tucker_subscript_step 2) (seq 0 2) (""%string, ""%string, ""%string)
      = Ok subscripts /\
    fst (fst subscripts) = "AB"%string.
Proof.
  destruct (tucker_subscripts_distinct_letters 2 2 ltac:(lia)) as (subs & Hloop & _).
  exists subs. split; [exact Hloop|].
  cbv in Hloop. injection Hloop as <-. reflexivity.
Defined.

Lemma cp_to_tensor_no_factor_matrices_witness :
  exists t : dense Z,
    cp_to_tensor (Some sample_weights, []) = Ok t /\
    shape (dense_values t) = [] /\
    get (dense_values t) [] = 110%Z.
Proof.
  destruct (cp_to_tensor_no_factor_matrices sample_weights 2 eq_refl eq_refl)
    as (t & Ht & Hshape & Hget).
  exists t. split; [exact Ht|]. split; [exact Hshape|]. exact Hget.
Defined.

Lemma cp_to_tensor_rank_zero_witness :
  exists t : dense Z,
    cp_to_tensor (Some empty_weights, [Matrix rankless_factor]) = Ok t /\
    shape (dense_values t) = [2] /\
    get (dense_values t) [1] = 0%Z.
Proof.
  destruct (cp_to_tensor_rank_zero empty_weights [Matrix rankless_factor] [2]
              ltac:(simpl; lia) eq_refl eq_refl) as (t & Ht & Hshape & Hget).
  exists t. split; [exact Ht|]. split; [exact Hshape|].
  apply Hget. repeat constructor.
Defined.

Lemma extract_singleton_wrong_size_witness :
  extract_singleton (Plain sample_weights)
  = Raise (ValueError "can only convert an array of size 1 to a Python scalar").
Proof.
  apply (extract_singleton_wrong_size (Plain sample_weights)).
  - reflexivity.
  - simpl. lia.
Defined.

Lemma tucker_to_tensor_identity_factors_witness :
  tucker_to_tensor (sample_core, [Matrix (eye 2); Matrix (eye 2)])
  = Ok (PlainTensor sample_core).
Proof.
  apply (tucker_to_tensor_identity_factors sample_core).
  - reflexivity.
  - simpl. lia.
Defined.
